(** * Source RCON client ([valve/source/rcon.py]): codec, response buffer
      and connection state machine.

    The Python module is embedded shallowly.  Byte strings are lists of
    [byte]; Python integers are [Z]; exceptions are values of [exn];
    methods that mutate [self] or touch the socket are functions in a
    state-and-exception monad whose state is kept when an exception is
    raised, as in Python. *)

From Stdlib Require Import Strings.String Strings.Ascii Strings.Byte.
From Stdlib Require Import ZArith List Bool Lia.
Import ListNotations.
Local Open Scope list_scope.
Local Open Scope Z_scope.

(** ** Exceptions *)

(** The messages carried by the base [RCONError]. *)
Inductive rcon_error_msg : Set :=
| Response_buffer_is_empty
| Cannot_connect
| Cannot_authenticate
| Cannot_close.

(** The exception classes the module raises or lets through. *)
Inductive exn : Set :=
| RCONError (msg : rcon_error_msg)
| RCONCommunicationError
| RCONTimeoutError
| RCONAuthenticationError (banned : bool)
| RCONMessageError
| ValueError
| struct_error
| socket_error
| UnicodeEncodeError
| AttributeError.

(** [isinstance(e, RCONError)]: the base class and its four subclasses. *)
Definition is_RCONError (e : exn) : bool :=
  match e with
  | RCONError _ | RCONCommunicationError | RCONTimeoutError
  | RCONAuthenticationError _ | RCONMessageError => true
  | _ => false
  end.

(** Result of a pure computation that may raise. *)
Inductive result (A : Type) : Type :=
| Ok (a : A)
| Err (e : exn).
Arguments Ok {A} a.
Arguments Err {A} e.

Definition rbind {A B : Type} (r : result A) (k : A -> result B) : result B :=
  match r with
  | Ok a => k a
  | Err e => Err e
  end.

Notation "'let?' x ':=' r 'in' k" := (rbind r (fun x => k))
  (at level 10, x pattern, r at level 100, k at level 200).

(** ** Byte strings and Python slices *)

Definition bytes : Set := list byte.

Definition byte_of_Z (z : Z) : byte :=
  match Byte.of_N (Z.to_N (z mod 256)) with
  | Some b => b
  | None => x00
  end.

Definition Z_of_byte (b : byte) : Z := Z.of_N (Byte.to_N b).

(** Position denoted by the slice bound [n] in a sequence of length [len]:
    a negative bound counts from the end, and both are clamped. *)
Definition slice_bound (n : Z) (len : nat) : nat :=
  if n <? 0 then Z.to_nat (Z.max 0 (Z.of_nat len + n))
  else Nat.min (Z.to_nat n) len.

(** [b[:n]] *)
Definition slice_to {A : Type} (n : Z) (b : list A) : list A :=
  firstn (slice_bound n (length b)) b.

(** [b[n:]] *)
Definition slice_from {A : Type} (n : Z) (b : list A) : list A :=
  skipn (slice_bound n (length b)) b.

(** ** The [struct] formats used: ["<i"], ["<ii"], ["<iii"] *)

Module struct.

Definition int_min : Z := -2147483648.
Definition int_max : Z := 2147483647.

Definition in_int (v : Z) : bool := (int_min <=? v) && (v <=? int_max).

(** Four little-endian bytes of the two's complement of [v]. *)
Definition le_bytes (v : Z) : bytes :=
  [ byte_of_Z v; byte_of_Z (Z.shiftr v 8);
    byte_of_Z (Z.shiftr v 16); byte_of_Z (Z.shiftr v 24) ].

Definition le_unsigned (b0 b1 b2 b3 : byte) : Z :=
  Z_of_byte b0 + 256 * Z_of_byte b1 + 65536 * Z_of_byte b2
  + 16777216 * Z_of_byte b3.

Definition le_signed (b0 b1 b2 b3 : byte) : Z :=
  let u := le_unsigned b0 b1 b2 b3 in
  if 2147483648 <=? u then u - 4294967296 else u.

(** [struct.calcsize] of the two formats the module measures. *)
Definition calcsize_i : Z := 4.
Definition calcsize_ii : Z := 8.

(** [struct.pack("<iii", a, b, c)]: each argument must fit a C int. *)
Definition pack_iii (a b c : Z) : result bytes :=
  if in_int a && in_int b && in_int c
  then Ok (le_bytes a ++ le_bytes b ++ le_bytes c)
  else Err struct_error.

(** [struct.unpack("<i", buf)[0]]: the buffer must hold exactly 4 bytes. *)
Definition unpack_i (buf : bytes) : result Z :=
  match buf with
  | [b0; b1; b2; b3] => Ok (le_signed b0 b1 b2 b3)
  | _ => Err struct_error
  end.

(** [struct.unpack("<ii", buf)]: the buffer must hold exactly 8 bytes. *)
Definition unpack_ii (buf : bytes) : result (Z * Z) :=
  match buf with
  | [b0; b1; b2; b3; c0; c1; c2; c3] =>
      Ok (le_signed b0 b1 b2 b3, le_signed c0 c1 c2 c3)
  | _ => Err struct_error
  end.

End struct.

(** ** [class RCONMessage] *)

Module RCONMessage.

(** [class Type(enum.IntEnum)].  [EXECCOMMAND = 2] is declared after
    [AUTH_RESPONSE = 2], so it is an alias of that member. *)
Inductive Type_ : Set :=
| RESPONSE_VALUE
| AUTH_RESPONSE
| AUTH.

Definition EXECCOMMAND : Type_ := AUTH_RESPONSE.

Definition Type_value (t : Type_) : Z :=
  match t with
  | RESPONSE_VALUE => 0
  | AUTH_RESPONSE => 2
  | AUTH => 3
  end.

(** [Type(v)]: look a member up by value; [ValueError] when there is none. *)
Definition Type_of_value (v : Z) : result Type_ :=
  if v =? 0 then Ok RESPONSE_VALUE
  else if v =? 2 then Ok AUTH_RESPONSE
  else if v =? 3 then Ok AUTH
  else Err ValueError.

Record t : Set := Message {
  id : Z;
  type : Type_;
  body : bytes
}.

(** The third constructor argument: a byte string or a text. *)
Inductive body_or_text : Set :=
| Bytes (b : bytes)
| Text (s : string).

(** [text.encode("ascii")]: every character must be below 128. *)
Fixpoint ascii_encode (s : string) : result bytes :=
  match s with
  | EmptyString => Ok []
  | String c rest =>
      if (Ascii.N_of_ascii c <? 128)%N
      then let? bs := ascii_encode rest in
           Ok (byte_of_Z (Z.of_N (Ascii.N_of_ascii c)) :: bs)
      else Err UnicodeEncodeError
  end.

(** [RCONMessage.__init__] *)
Definition __init__ (id_ type_ : Z) (bt : body_or_text) : result t :=
  let? ty := Type_of_value type_ in
  match bt with
  | Bytes b => Ok (Message id_ ty b)
  | Text s => let? b := ascii_encode s in Ok (Message id_ ty b)
  end.

(** [RCONMessage.encode] *)
Definition encode (self : t) : result bytes :=
  let terminated_body := body self ++ [x00; x00] in
  let size := struct.calcsize_ii + Z.of_nat (length terminated_body) in
  let? head := struct.pack_iii size (id self) (Type_value (type self)) in
  Ok (head ++ terminated_body).

(** [RCONMessage.decode] *)
Definition decode (buffer_ : bytes) : result (t * bytes) :=
  let size_field_length := struct.calcsize_i in
  if Z.of_nat (length buffer_) <? size_field_length
  then Err RCONMessageError
  else
    let size_field := slice_to size_field_length buffer_ in
    let raw_message := slice_from size_field_length buffer_ in
    let? size := struct.unpack_i size_field in
    if Z.of_nat (length raw_message) <? size
    then Err RCONMessageError
    else
      let message := slice_to size raw_message in
      let remainder := slice_from size raw_message in
      let fixed_fields_size := struct.calcsize_ii in
      let fixed_fields := slice_to fixed_fields_size message in
      let body_and_terminators := slice_from fixed_fields_size message in
      let? (id_, type_) := struct.unpack_ii fixed_fields in
      let body := slice_to (-2) body_and_terminators in
      let? m := __init__ id_ type_ (Bytes body) in
      Ok (m, remainder).

(** What reading the [text] property gives: the text, or the
    [UnicodeDecodeError] that [bytes.decode] raises. *)
Inductive text_result : Set :=
| Decoded (s : string)
| UnicodeDecodeError.

(** [body.decode("ascii")]: every byte must be below 128. *)
Fixpoint ascii_decode (b : bytes) : text_result :=
  match b with
  | [] => Decoded EmptyString
  | x :: rest =>
      if (Byte.to_N x <? 128)%N
      then match ascii_decode rest with
           | Decoded s => Decoded (String (Ascii.ascii_of_N (Byte.to_N x)) s)
           | UnicodeDecodeError => UnicodeDecodeError
           end
      else UnicodeDecodeError
  end.

(** The getter of [RCONMessage.text] *)
Definition text (self : t) : text_result := ascii_decode (body self).

(** The setter of [RCONMessage.text] *)
Definition set_text (s : string) (self : t) : result t :=
  let? b := ascii_encode s in Ok (Message (id self) (type self) b).

End RCONMessage.

(** ** [class _ResponseBuffer] *)

Module _ResponseBuffer.

(** [_discard_next] starts at 0, is incremented by [discard] and is
    decremented by [_consume] only when it is not 0: it is a natural
    number. *)
Record t : Set := Buffer {
  _buffer : bytes;
  _responses : list RCONMessage.t;
  _discard_next : nat
}.

(** [_ResponseBuffer.__init__] *)
Definition __init__ : t := Buffer [] [] 0.

(** [_ResponseBuffer.pop] *)
Definition pop (self : t) : t * result RCONMessage.t :=
  match _responses self with
  | [] => (self, Err (RCONError Response_buffer_is_empty))
  | m :: rest => (Buffer (_buffer self) rest (_discard_next self), Ok m)
  end.

(** One turn of the [while] loop of [_consume], for a non-empty buffer:
    [inl] is the state to loop on, [inr] the way the method ends. *)
Definition _consume_step (self : t) : t + (t * result unit) :=
  match RCONMessage.decode (_buffer self) with
  | Err RCONMessageError => inr (self, Ok tt)
  | Err e => inr (self, Err e)
  | Ok (message, rest) =>
      match _discard_next self with
      | O => inl (Buffer rest (_responses self ++ [message]) O)
      | S n => inl (Buffer rest (_responses self) n)
      end
  end.

(** The [while self._buffer] loop.  Every turn that loops shortens the
    buffer, so its length bounds the number of turns
    (see [_consume_unfold]). *)
Fixpoint _consume_loop (fuel : nat) (self : t) : t * result unit :=
  match _buffer self with
  | [] => (self, Ok tt)
  | _ :: _ =>
      match fuel with
      | O => (self, Ok tt)
      | S fuel' =>
          match _consume_step self with
          | inl self' => _consume_loop fuel' self'
          | inr r => r
          end
      end
  end.

(** [_ResponseBuffer._consume] *)
Definition _consume (self : t) : t * result unit :=
  _consume_loop (length (_buffer self)) self.

(** [_ResponseBuffer.feed]; the hexadecimal dump it prints is not
    modelled. *)
Definition feed (bytes_ : bytes) (self : t) : t * result unit :=
  _consume (Buffer (_buffer self ++ bytes_) (_responses self)
              (_discard_next self)).

(** [_ResponseBuffer.discard] *)
Definition discard (self : t) : t :=
  match _responses self with
  | _ :: rest => Buffer (_buffer self) rest (_discard_next self)
  | [] => Buffer (_buffer self) [] (S (_discard_next self))
  end.

(** Successive [feed] calls; an exception ends the sequence. *)
Fixpoint feed_all (chunks : list bytes) (self : t) : t * result unit :=
  match chunks with
  | [] => (self, Ok tt)
  | c :: rest =>
      match feed c self with
      | (self', Ok _) => feed_all rest self'
      | r => r
      end
  end.

(** [n] successive [discard] calls. *)
Fixpoint discard_times (n : nat) (self : t) : t :=
  match n with
  | O => self
  | S n' => discard_times n' (discard self)
  end.

(** The operations of a buffer. *)
Inductive op : Set :=
| Op_feed (bytes_ : bytes)
| Op_pop
| Op_discard.

(** The buffer after one operation, its result dropped. *)
Definition run_op (o : op) (self : t) : t :=
  match o with
  | Op_feed bytes_ => fst (feed bytes_ self)
  | Op_pop => fst (pop self)
  | Op_discard => discard self
  end.

(** The buffer after a sequence of operations. *)
Definition run_ops (os : list op) (self : t) : t :=
  fold_left (fun rb o => run_op o rb) os self.

(** [n] successive [pop] calls: the messages popped, oldest first, until
    one call raises. *)
Fixpoint pop_times (n : nat) (self : t) : t * result (list RCONMessage.t) :=
  match n with
  | O => (self, Ok [])
  | S n' =>
      match pop self with
      | (self', Ok m) =>
          match pop_times n' self' with
          | (self'', Ok ms) => (self'', Ok (m :: ms))
          | r => r
          end
      | (self', Err e) => (self', Err e)
      end
  end.

End _ResponseBuffer.

(** ** The socket and the clock *)

(** What one [recv(4096)] call on the connected socket gives: some bytes
    (none at all when the peer has closed the stream) or [socket.error]. *)
Inductive recv_event : Set :=
| Recv_bytes (b : bytes)
| Recv_error.

Inductive send_event : Set :=
| Send_ok
| Send_error.

Inductive socket_status : Set :=
| Sock_new
| Sock_connected
| Sock_closed.

(** The environment of one [RCON] object: the state of the socket it
    creates and the scripts that say what the peer and the clock do.
    - [accepts]: whether [socket.connect] succeeds;
    - [recvs]: the results of the successive [recv] calls; when the script
      is exhausted [recv] blocks for ever (the socket is a blocking one);
    - [sends]: the results of the successive [sendall] calls, [Send_ok]
      once the script is exhausted; [sent] logs what was transmitted;
    - [clock], [ticks]: [time.monotonic()] returns [clock ticks] on its
      [ticks]-th call, in ticks of the clock. *)
Record Env : Type := mkEnv {
  accepts : bool;
  status : socket_status;
  recvs : list recv_event;
  sends : list send_event;
  sent : list bytes;
  clock : nat -> Z;
  ticks : nat
}.

(** A reference to the socket object. *)
Inductive socket : Set := Socket.

(** ** [class RCON] *)

Module RCON.

Record t : Type := Conn {
  _address : string * Z;
  _password : RCONMessage.body_or_text;
  _timeout : option Z;
  _authenticated : bool;
  _socket : option socket;
  _closed : bool;
  _responses : _ResponseBuffer.t
}.

(** The object and its environment. *)
Record State : Type := mkState {
  self : t;
  env : Env
}.

(** How a method call ends; [Hang] is a [recv] that never returns. *)
Inductive outcome (A : Type) : Type :=
| Return (a : A)
| Raise (e : exn)
| Hang.
Arguments Return {A} a.
Arguments Raise {A} e.
Arguments Hang {A}.

(** Methods: the state reached is kept whatever the outcome. *)
Definition M (A : Type) : Type := State -> State * outcome A.

Definition ret {A : Type} (a : A) : M A := fun s => (s, Return a).

Definition raise {A : Type} (e : exn) : M A := fun s => (s, Raise e).

Definition bind {A B : Type} (c : M A) (k : A -> M B) : M B :=
  fun s =>
    match c s with
    | (s', Return a) => k a s'
    | (s', Raise e) => (s', Raise e)
    | (s', Hang) => (s', Hang)
    end.

Notation "x <- c ;; k" := (bind c (fun x => k))
  (at level 61, c at next level, right associativity).
Notation "c ;; k" := (bind c (fun _ => k))
  (at level 61, right associativity).

(** [try: c  except <class>: h]: [catches] says which exceptions the
    clause takes. *)
Definition try_except {A : Type} (c : M A) (catches : exn -> bool) (h : M A)
  : M A :=
  fun s =>
    match c s with
    | (s', Raise e) => if catches e then h s' else (s', Raise e)
    | r => r
    end.

Definition of_result {A : Type} (r : result A) : M A :=
  fun s => match r with Ok a => (s, Return a) | Err e => (s, Raise e) end.

Definition get_self : M t := fun s => (s, Return (self s)).

Definition set_self (f : t -> t) : M unit :=
  fun s => (mkState (f (self s)) (env s), Return tt).

Definition set_authenticated (b : bool) (c : t) : t :=
  Conn (_address c) (_password c) (_timeout c) b (_socket c) (_closed c)
    (_responses c).

Definition set_socket (o : option socket) (c : t) : t :=
  Conn (_address c) (_password c) (_timeout c) (_authenticated c) o
    (_closed c) (_responses c).

Definition set_closed (b : bool) (c : t) : t :=
  Conn (_address c) (_password c) (_timeout c) (_authenticated c)
    (_socket c) b (_responses c).

Definition set_responses (r : _ResponseBuffer.t) (c : t) : t :=
  Conn (_address c) (_password c) (_timeout c) (_authenticated c)
    (_socket c) (_closed c) r.

(** A call of a method of [self._responses]. *)
Definition on_responses {A : Type}
  (f : _ResponseBuffer.t -> _ResponseBuffer.t * result A) : M A :=
  fun s =>
    let (r', res) := f (_responses (self s)) in
    of_result res (mkState (set_responses r' (self s)) (env s)).

(** *** Socket and clock primitives *)

Definition set_status (st : socket_status) (e : Env) : Env :=
  mkEnv (accepts e) st (recvs e) (sends e) (sent e) (clock e) (ticks e).

(** [time.monotonic()] *)
Definition monotonic : M Z :=
  fun s =>
    let e := env s in
    (mkState (self s)
       (mkEnv (accepts e) (status e) (recvs e) (sends e) (sent e) (clock e)
          (S (ticks e))),
     Return (clock e (ticks e))).

(** [socket.socket(...)]: a new, unconnected socket. *)
Definition socket_socket : M socket :=
  fun s => (mkState (self s) (set_status Sock_new (env s)), Return Socket).

(** [sock.connect(address)] *)
Definition socket_connect : M unit :=
  fun s =>
    if accepts (env s)
    then (mkState (self s) (set_status Sock_connected (env s)), Return tt)
    else (s, Raise socket_error).

(** [sock.close()] *)
Definition socket_close : M unit :=
  fun s => (mkState (self s) (set_status Sock_closed (env s)), Return tt).

(** [sock.sendall(data)] *)
Definition socket_sendall (data : bytes) : M unit :=
  fun s =>
    let e := env s in
    match status e with
    | Sock_connected =>
        match sends e with
        | Send_error :: rest =>
            (mkState (self s)
               (mkEnv (accepts e) (status e) (recvs e) rest (sent e)
                  (clock e) (ticks e)),
             Raise socket_error)
        | rest =>
            (mkState (self s)
               (mkEnv (accepts e) (status e) (recvs e) (tl rest)
                  (sent e ++ [data]) (clock e) (ticks e)),
             Return tt)
        end
    | _ => (s, Raise socket_error)
    end.

(** [sock.recv(4096)] *)
Definition socket_recv : M bytes :=
  fun s =>
    let e := env s in
    match status e with
    | Sock_connected =>
        match recvs e with
        | [] => (s, Hang)
        | ev :: rest =>
            let s' := mkState (self s)
                        (mkEnv (accepts e) (status e) rest (sends e) (sent e)
                           (clock e) (ticks e)) in
            match ev with
            | Recv_bytes b => (s', Return b)
            | Recv_error => (s', Raise socket_error)
            end
        end
    | _ => (s, Raise socket_error)
    end.

(** [self._socket.<method>]: the attribute of [None] does not exist. *)
Definition the_socket : M socket :=
  fun s =>
    match _socket (self s) with
    | Some sock => (s, Return sock)
    | None => (s, Raise AttributeError)
    end.

Definition is_socket_error (e : exn) : bool :=
  match e with socket_error => true | _ => false end.

Definition is_RCONCommunicationError (e : exn) : bool :=
  match e with RCONCommunicationError => true | _ => false end.

(** Truth value of [self._socket]: [None] is false, a socket object is
    true. *)
Definition truthy {A : Type} (o : option A) : bool :=
  match o with Some _ => true | None => false end.

(** *** The methods *)

(** [RCON.__init__]: a timeout that is falsy ([None] or zero) is stored
    as [None]. *)
Definition __init__ (address : string * Z)
  (password : RCONMessage.body_or_text) (timeout : option Z) : t :=
  Conn address password
    (match timeout with
     | Some v => if v =? 0 then None else Some v
     | None => None
     end)
    false None false _ResponseBuffer.__init__.

(** [RCON.close] *)
Definition close : M unit :=
  c <- get_self ;;
  if negb (truthy (_socket c))
  then raise (RCONError Cannot_close)
  else
    set_self (set_closed true) ;;
    socket_close.

(** [RCON._request] *)
Definition _request (type_ : RCONMessage.Type_)
  (body : RCONMessage.body_or_text) : M unit :=
  request <- of_result
    (RCONMessage.__init__ 0 (RCONMessage.Type_value type_) body) ;;
  _ <- the_socket ;;
  data <- of_result (RCONMessage.encode request) ;;
  socket_sendall data.

(** [RCON._read] *)
Definition _read : M unit :=
  i_bytes <- try_except (_ <- the_socket ;; socket_recv) is_socket_error
               (close ;; raise RCONCommunicationError) ;;
  match i_bytes with
  | [] => close ;; raise RCONCommunicationError
  | _ :: _ => on_responses (_ResponseBuffer.feed i_bytes)
  end.

(** The [while] loop of [_receive].  A turn that loops has taken one event
    from the [recv] script, so a fuel above the length of the script is
    never used up (see [_receive_loop_fuel]). *)
Fixpoint _receive_loop (fuel : nat) (count : Z) (time_start : Z)
  (responses : list RCONMessage.t) : M (list RCONMessage.t) :=
  c <- get_self ;;
  go <- match _timeout c with
        | None => ret true
        | Some timeout => now <- monotonic ;; ret (now - time_start <? timeout)
        end ;;
  if go : bool then
    match fuel with
    | O => fun s => (s, Hang)
    | S fuel' =>
        _read ;;
        r <- try_except
               (response <- on_responses _ResponseBuffer.pop ;;
                ret (Some response))
               is_RCONError (ret None) ;;
        match r with
        | None => _receive_loop fuel' count time_start responses
        | Some response =>
            let responses' := responses ++ [response] in
            if Z.of_nat (length responses') =? count
            then ret responses'
            else _receive_loop fuel' count time_start responses'
        end
    end
  else
    close ;; raise RCONTimeoutError.

(** [RCON._receive] *)
Definition _receive (count : Z) : M (list RCONMessage.t) :=
  time_start <- monotonic ;;
  fun s => _receive_loop (S (length (recvs (env s)))) count time_start [] s.

(** [RCON.connect]; the debug log line is not modelled. *)
Definition connect : M unit :=
  c <- get_self ;;
  if _closed c || truthy (_socket c)
  then raise (RCONError Cannot_connect)
  else
    sock <- socket_socket ;;
    set_self (set_socket (Some sock)) ;;
    socket_connect.

(** [RCON.authenticate] *)
Definition authenticate : M unit :=
  c <- get_self ;;
  if _closed c || negb (truthy (_socket c))
  then raise (RCONError Cannot_authenticate)
  else
    _request RCONMessage.AUTH (_password c) ;;
    received <- try_except (_receive 2) is_RCONCommunicationError
                  (raise (RCONAuthenticationError true)) ;;
    match received with
    | [_; response] =>
        if RCONMessage.id response =? -1
        then close ;; raise (RCONAuthenticationError false)
        else set_self (set_authenticated true)
    | _ => raise ValueError
    end.

(** [RCON.execute]: the reply when [block] is true, [None] otherwise.
    Indexing an empty tuple would raise [IndexError], which [exn] does not
    list: [_receive(1)] returns one message when it returns, so that branch
    is never taken. *)
Definition execute (command : RCONMessage.body_or_text) (block : bool)
  : M (option RCONMessage.t) :=
  _request RCONMessage.EXECCOMMAND command ;;
  if block
  then
    received <- _receive 1 ;;
    match received with
    | response :: _ => ret (Some response)
    | [] => raise ValueError
    end
  else
    set_self (fun c => set_responses (_ResponseBuffer.discard (_responses c)) c) ;;
    _read ;;
    ret None.

(** The four lifecycle states of a connection. *)
Inductive lifecycle : Set :=
| Unconnected
| Connected
| Authenticated
| Closed.

Definition lifecycle_of (c : t) : lifecycle :=
  if _closed c then Closed
  else match _socket c with
       | None => Unconnected
       | Some _ => if _authenticated c then Authenticated else Connected
       end.

(** [RCON.is_authenticated] *)
Definition is_authenticated (c : t) : bool := _authenticated c.

(** [RCON.__enter__]; the object itself is what it returns. *)
Definition __enter__ : M unit :=
  connect ;;
  authenticate.

(** [RCON.__exit__] *)
Definition __exit__ : M unit := close.

(** [RCON.__call__]: [execute] with [block] left at its default, then the
    text of the reply; a [UnicodeDecodeError] becomes an
    [RCONMessageError]. *)
Definition __call__ (command : RCONMessage.body_or_text) : M string :=
  r <- execute command true ;;
  match r with
  | Some response =>
      match RCONMessage.text response with
      | RCONMessage.Decoded s => ret s
      | RCONMessage.UnicodeDecodeError => raise RCONMessageError
      end
  | None => raise AttributeError
  end.

(** The calls a user makes on a connection. *)
Inductive call : Set :=
| Call_connect
| Call_authenticate
| Call_close
| Call_execute (command : RCONMessage.body_or_text) (block : bool)
| Call_invoke (command : RCONMessage.body_or_text).

(** One call, its result dropped. *)
Definition run_call (c : call) : M unit :=
  match c with
  | Call_connect => connect
  | Call_authenticate => authenticate
  | Call_close => close
  | Call_execute command block => execute command block ;; ret tt
  | Call_invoke command => __call__ command ;; ret tt
  end.

(** The state after a sequence of calls: the caller goes on after a
    return and after an exception; after a call that never returns there is
    no next call. *)
Fixpoint run_calls (cs : list call) (s : State) : State :=
  match cs with
  | [] => s
  | c :: rest =>
      match run_call c s with
      | (s', Hang) => s'
      | (s', _) => run_calls rest s'
      end
  end.

End RCON.

(** ** Vocabulary of the statements *)

(** The size field of the frame of a message. *)
Definition frame_size (m : RCONMessage.t) : Z :=
  10 + Z.of_nat (length (RCONMessage.body m)).

(** [encode] then [decode] on a message built from [id_], [type_] and
    [body_]: both succeed, nothing is left over, and the decoded message
    carries the three values. *)
Definition round_trip (id_ type_ : Z) (body_ : bytes) : Prop :=
  exists m frame m',
    RCONMessage.__init__ id_ type_ (RCONMessage.Bytes body_) = Ok m /\
    RCONMessage.encode m = Ok frame /\
    RCONMessage.decode frame = Ok (m', []) /\
    RCONMessage.id m' = id_ /\
    RCONMessage.Type_value (RCONMessage.type m') = type_ /\
    RCONMessage.body m' = body_.

(** The state after [close] has run on a connection that has a socket. *)
Definition after_close (s : RCON.State) : RCON.State :=
  RCON.mkState (RCON.set_closed true (RCON.self s))
    (RCON.set_status Sock_closed (RCON.env s)).

(** The state after a [recv] call has taken its event from the script. *)
Definition after_recv (s : RCON.State) : RCON.State :=
  let e := RCON.env s in
  RCON.mkState (RCON.self s)
    (mkEnv (accepts e) (status e) (tl (recvs e)) (sends e) (sent e) (clock e)
       (ticks e)).

(** The state after a call of [time.monotonic()]. *)
Definition after_tick (s : RCON.State) : RCON.State :=
  let e := RCON.env s in
  RCON.mkState (RCON.self s)
    (mkEnv (accepts e) (status e) (recvs e) (sends e) (sent e) (clock e)
       (S (ticks e))).

(** The state after [self._responses.pop()] has taken the oldest message. *)
Definition after_pop (s : RCON.State) : RCON.State :=
  let rb := RCON._responses (RCON.self s) in
  RCON.mkState
    (RCON.set_responses
       (_ResponseBuffer.Buffer (_ResponseBuffer._buffer rb)
          (tl (_ResponseBuffer._responses rb))
          (_ResponseBuffer._discard_next rb))
       (RCON.self s))
    (RCON.env s).

(** What the receive path never writes: every attribute but [_closed]
    and [_responses]. *)
Definition same_settings (c c' : RCON.t) : Prop :=
  RCON._address c' = RCON._address c /\
  RCON._password c' = RCON._password c /\
  RCON._timeout c' = RCON._timeout c /\
  RCON._authenticated c' = RCON._authenticated c /\
  RCON._socket c' = RCON._socket c.

(** What holds of the way the loop of [_receive], entered in state [s]
    to collect [count] messages, ends in state [s'] with outcome [o]. *)
Definition receive_post (count : Z) (s s' : RCON.State)
  (o : RCON.outcome (list RCONMessage.t)) : Prop :=
  same_settings (RCON.self s) (RCON.self s') /\
  match o with
  | RCON.Return ms =>
      Z.of_nat (length ms) = count /\
      RCON._closed (RCON.self s') = RCON._closed (RCON.self s)
  | RCON.Raise RCONCommunicationError =>
      RCON._closed (RCON.self s') = true /\
      status (RCON.env s') = Sock_closed
  | RCON.Raise RCONTimeoutError =>
      RCON._closed (RCON.self s') = true /\
      status (RCON.env s') = Sock_closed /\
      RCON._timeout (RCON.self s) <> None
  | RCON.Raise (RCONError _) => RCON._socket (RCON.self s) = None
  | _ => True
  end.

Section Turn.

Import RCON.

(** The branch taken when the time is up. *)
Definition time_is_up : M (list RCONMessage.t) :=
  close ;; raise RCONTimeoutError.

(** One turn of the loop of [_receive] once the condition holds. *)
Definition turn (fuel : nat) (count ts : Z) (rs : list RCONMessage.t)
  (s1 : State) : State * outcome (list RCONMessage.t) :=
  match _read s1 with
  | (s2, Return _) =>
      match _ResponseBuffer._responses (_responses (self s2)) with
      | [] => _receive_loop fuel count ts rs s2
      | m :: _ =>
          if Z.of_nat (length (rs ++ [m])) =? count
          then (after_pop s2, Return (rs ++ [m]))
          else _receive_loop fuel count ts (rs ++ [m]) (after_pop s2)
      end
  | (s2, Raise e) => (s2, Raise e)
  | (s2, Hang) => (s2, Hang)
  end.

End Turn.

(** Messages wait in the queue only while no discard is pending. *)
Definition no_queue_while_discarding (rb : _ResponseBuffer.t) : Prop :=
  _ResponseBuffer._discard_next rb = 0%nat \/
  _ResponseBuffer._responses rb = [].

(** The exceptions that come out of the receive path. *)
Definition receive_exn (e : exn) : Prop :=
  e = RCONCommunicationError \/ e = RCONTimeoutError \/
  e = RCONError Cannot_close \/ e = AttributeError \/
  e = ValueError \/ e = struct_error.

Section Shape.

Import RCON.

(** The state after [self._responses.discard()]. *)
Definition after_discard (s : State) : State :=
  mkState
    (set_responses (_ResponseBuffer.discard (_responses (self s))) (self s))
    (env s).

(** What every state a user can reach satisfies: a connection that is
    closed or authenticated has a socket; the socket of a connection is
    closed exactly when [_closed] is set; and no message is queued while a
    discard is pending. *)
Definition well_formed (s : State) : Prop :=
  (_closed (self s) = true -> truthy (_socket (self s)) = true) /\
  (_authenticated (self s) = true -> truthy (_socket (self s)) = true) /\
  (truthy (_socket (self s)) = true ->
   (_closed (self s) = true <-> status (env s) = Sock_closed)) /\
  no_queue_while_discarding (_responses (self s)).

(** How the attributes of a connection change with time: the address, the
    password and the timeout stay; [_authenticated], [_closed] and
    [_socket], once set, stay set. *)
Definition grows (c c' : t) : Prop :=
  _address c' = _address c /\
  _password c' = _password c /\
  _timeout c' = _timeout c /\
  (_authenticated c = true -> _authenticated c' = true) /\
  (_closed c = true -> _closed c' = true) /\
  (truthy (_socket c) = true -> truthy (_socket c') = true).

(** A change of state that keeps [well_formed] and makes the attributes
    grow. *)
Definition step_ok (s s' : State) : Prop :=
  (well_formed s -> well_formed s') /\ grows (self s) (self s').

(** The state after [connect] has created the socket; [ok] says whether
    the peer accepted the connection. *)
Definition after_connect (ok : bool) (s : State) : State :=
  mkState (set_socket (Some Socket) (self s))
    (set_status (if ok then Sock_connected else Sock_new) (env s)).

(** The state in which the first [recv] of [_receive] is made, and
    whether the first test of the loop lets it be made. *)
Definition first_read (s : State) : State :=
  match _timeout (self s) with
  | None => after_tick s
  | Some _ => after_tick (after_tick s)
  end.

Definition in_time (s : State) : bool :=
  match _timeout (self s) with
  | None => true
  | Some t =>
      clock (env s) (S (ticks (env s))) - clock (env s) (ticks (env s)) <? t
  end.

End Shape.

(** ** Sample connections *)

Section Samples.

Import RCON.

(** The two replies of a server that accepts the password: an empty
    [RESPONSE_VALUE], then the [AUTH_RESPONSE] that echoes the id. *)
Definition empty_reply : RCONMessage.t :=
  RCONMessage.Message 0 RCONMessage.RESPONSE_VALUE [].

Definition auth_reply : RCONMessage.t :=
  RCONMessage.Message 0 RCONMessage.AUTH_RESPONSE [].

Definition empty_reply_frame : bytes :=
  [x0a; x00; x00; x00; x00; x00; x00; x00; x00; x00; x00; x00; x00; x00].

Definition auth_reply_frame : bytes :=
  [x0a; x00; x00; x00; x00; x00; x00; x00; x02; x00; x00; x00; x00; x00].

(** A clock that advances by one tick between two readings. *)
Definition sample_clock (n : nat) : Z := Z.of_nat n.

(** A connection after [connect], with the given timeout, authenticated
    flag and [recv] script. *)
Definition sample_state (timeout : option Z) (authenticated : bool)
  (script : list recv_event) : State :=
  mkState
    (set_authenticated authenticated
       (set_socket (Some Socket)
          (__init__ ("localhost"%string, 27015) (RCONMessage.Text "pw")
             timeout)))
    (mkEnv true Sock_connected script [] [] sample_clock 0).

End Samples.

(** * Properties *)

(** ** Bytes, slices and the [struct] formats *)

Lemma Z_of_byte_of_Z (z : Z) : Z_of_byte (byte_of_Z z) = z mod 256.
Proof.
  unfold Z_of_byte, byte_of_Z.
  assert (Hb : 0 <= z mod 256 < 256) by (apply Z.mod_pos_bound; lia).
  destruct (Byte.of_N (Z.to_N (z mod 256))) as [b|] eqn:E.
  - apply Byte.to_of_N in E. rewrite E. apply Z2N.id. lia.
  - apply Byte.of_N_None_iff in E. lia.
Qed.

Lemma slice_to_app {A : Type} (n : Z) (a b : list A) :
  Z.of_nat (length a) = n -> slice_to n (a ++ b) = a.
Proof.
  intros H. unfold slice_to, slice_bound.
  destruct (n <? 0) eqn:E; [apply Z.ltb_lt in E; lia|].
  rewrite length_app.
  replace (Nat.min (Z.to_nat n) (length a + length b)) with (length a + 0)%nat
    by lia.
  rewrite firstn_app_2. simpl. apply app_nil_r.
Qed.

Lemma slice_from_app {A : Type} (n : Z) (a b : list A) :
  Z.of_nat (length a) = n -> slice_from n (a ++ b) = b.
Proof.
  intros H. unfold slice_from, slice_bound.
  destruct (n <? 0) eqn:E; [apply Z.ltb_lt in E; lia|].
  rewrite length_app.
  replace (Nat.min (Z.to_nat n) (length a + length b)) with (length a) by lia.
  rewrite skipn_app, skipn_all, Nat.sub_diag. reflexivity.
Qed.

Lemma slice_from_length {A : Type} (n : Z) (b : list A) :
  (length (slice_from n b) <= length b)%nat.
Proof. unfold slice_from. rewrite length_skipn. lia. Qed.

Lemma slice_from_length_nonneg {A : Type} (n : Z) (b : list A) :
  0 <= n -> n <= Z.of_nat (length b) ->
  Z.of_nat (length (slice_from n b)) = Z.of_nat (length b) - n.
Proof.
  intros H0 H1. unfold slice_from, slice_bound.
  destruct (n <? 0) eqn:E; [apply Z.ltb_lt in E; lia|].
  rewrite length_skipn. lia.
Qed.

Lemma le_bytes_length (v : Z) : length (struct.le_bytes v) = 4%nat.
Proof. reflexivity. Qed.

Lemma le_unsigned_le_bytes (v : Z) :
  struct.le_unsigned (byte_of_Z v) (byte_of_Z (Z.shiftr v 8))
    (byte_of_Z (Z.shiftr v 16)) (byte_of_Z (Z.shiftr v 24))
  = v mod 4294967296.
Proof.
  unfold struct.le_unsigned. rewrite !Z_of_byte_of_Z.
  rewrite !Z.shiftr_div_pow2 by lia.
  change (2 ^ 8) with 256. change (2 ^ 16) with 65536.
  change (2 ^ 24) with 16777216.
  Z.div_mod_to_equations. lia.
Qed.

Lemma le_signed_le_bytes (v : Z) :
  struct.in_int v = true ->
  struct.le_signed (byte_of_Z v) (byte_of_Z (Z.shiftr v 8))
    (byte_of_Z (Z.shiftr v 16)) (byte_of_Z (Z.shiftr v 24))
  = v.
Proof.
  unfold struct.in_int, struct.int_min, struct.int_max. intros H.
  apply andb_prop in H. destruct H as [Hlo Hhi].
  apply Z.leb_le in Hlo. apply Z.leb_le in Hhi.
  unfold struct.le_signed. rewrite le_unsigned_le_bytes.
  destruct (2147483648 <=? v mod 4294967296) eqn:E;
    [apply Z.leb_le in E | apply Z.leb_gt in E];
    revert E; Z.div_mod_to_equations; lia.
Qed.

Lemma unpack_i_le_bytes (v : Z) :
  struct.in_int v = true -> struct.unpack_i (struct.le_bytes v) = Ok v.
Proof.
  intros H. unfold struct.unpack_i, struct.le_bytes.
  rewrite le_signed_le_bytes by assumption. reflexivity.
Qed.

Lemma unpack_ii_le_bytes (v w : Z) :
  struct.in_int v = true -> struct.in_int w = true ->
  struct.unpack_ii (struct.le_bytes v ++ struct.le_bytes w) = Ok (v, w).
Proof.
  intros Hv Hw. unfold struct.unpack_ii, struct.le_bytes. simpl.
  rewrite !le_signed_le_bytes by assumption. reflexivity.
Qed.

Lemma unpack_i_errors (buf : bytes) (e : exn) :
  struct.unpack_i buf = Err e -> e = struct_error.
Proof.
  unfold struct.unpack_i.
  do 4 (destruct buf as [|? buf]; [intros H; injection H as <-; reflexivity|]).
  destruct buf; intros H; [discriminate|injection H as <-; reflexivity].
Qed.

Lemma unpack_ii_errors (buf : bytes) (e : exn) :
  struct.unpack_ii buf = Err e -> e = struct_error.
Proof.
  unfold struct.unpack_ii.
  do 8 (destruct buf as [|? buf]; [intros H; injection H as <-; reflexivity|]).
  destruct buf; intros H; [discriminate|injection H as <-; reflexivity].
Qed.

Lemma in_int_Type_value (ty : RCONMessage.Type_) :
  struct.in_int (RCONMessage.Type_value ty) = true.
Proof. destruct ty; reflexivity. Qed.

Lemma Type_of_value_Type_value (ty : RCONMessage.Type_) :
  RCONMessage.Type_of_value (RCONMessage.Type_value ty) = Ok ty.
Proof. destruct ty; reflexivity. Qed.

(** ** The codec *)

Section Codec.

Import RCONMessage.

(** What [encode] returns when it returns. *)
Lemma encode_Ok (m : RCONMessage.t) (frame : bytes) :
  encode m = Ok frame ->
  struct.in_int (frame_size m) = true /\ struct.in_int (id m) = true /\
  frame = struct.le_bytes (frame_size m)
          ++ (struct.le_bytes (id m) ++ struct.le_bytes (Type_value (type m)))
          ++ body m ++ [x00; x00].
Proof.
  unfold encode, struct.pack_iii, frame_size, struct.calcsize_ii.
  rewrite length_app. simpl length.
  replace (8 + Z.of_nat (length (body m) + 2)) with
    (10 + Z.of_nat (length (body m))) by lia.
  destruct (struct.in_int (10 + Z.of_nat (length (body m)))) eqn:E1;
    [|discriminate].
  destruct (struct.in_int (id m)) eqn:E2; [|discriminate].
  rewrite in_int_Type_value. cbn [andb rbind]. intros H.
  injection H as <-. repeat split.
Qed.

(** [encode] returns exactly when the id and the size fit a C int. *)
Lemma encode_defined (m : RCONMessage.t) :
  struct.in_int (frame_size m) = true -> struct.in_int (id m) = true ->
  exists frame, encode m = Ok frame.
Proof.
  intros H1 H2. unfold encode, struct.pack_iii, struct.calcsize_ii.
  rewrite length_app. simpl length.
  replace (8 + Z.of_nat (length (body m) + 2)) with (frame_size m)
    by (unfold frame_size; lia).
  rewrite H1, H2, in_int_Type_value. cbn [andb rbind]. eauto.
Qed.

Lemma encode_length (m : RCONMessage.t) (frame : bytes) :
  encode m = Ok frame -> Z.of_nat (length frame) = 4 + frame_size m.
Proof.
  intros H. apply encode_Ok in H. destruct H as (_ & _ & ->).
  rewrite !length_app, !le_bytes_length. unfold frame_size. simpl length. lia.
Qed.

(** Decoding a frame followed by anything gives the message back and
    leaves what follows. *)
Lemma decode_encode_app (m : RCONMessage.t) (frame rest : bytes) :
  encode m = Ok frame -> decode (frame ++ rest) = Ok (m, rest).
Proof.
  intros H. apply encode_Ok in H. destruct H as (Hsz & Hid & ->).
  assert (Hpos : 0 <= frame_size m) by (unfold frame_size; lia).
  set (fixed := struct.le_bytes (id m) ++ struct.le_bytes (Type_value (type m))).
  set (payload := fixed ++ body m ++ [x00; x00]).
  assert (Hfix : Z.of_nat (length fixed) = 8) by reflexivity.
  assert (Hlen : Z.of_nat (length payload) = frame_size m).
  { unfold payload, frame_size. rewrite !length_app. simpl length. lia. }
  unfold decode, struct.calcsize_i, struct.calcsize_ii.
  rewrite <- (app_assoc (struct.le_bytes (frame_size m)) payload rest).
  destruct (Z.of_nat (length (struct.le_bytes (frame_size m) ++ payload ++ rest))
            <? 4) eqn:E.
  { apply Z.ltb_lt in E. rewrite length_app, le_bytes_length in E. lia. }
  rewrite slice_to_app, slice_from_app by reflexivity.
  rewrite unpack_i_le_bytes by assumption. cbn [rbind].
  destruct (Z.of_nat (length (payload ++ rest)) <? frame_size m) eqn:E2.
  { apply Z.ltb_lt in E2. rewrite length_app in E2. lia. }
  rewrite slice_to_app, slice_from_app by assumption.
  unfold payload at 1 2.
  rewrite slice_to_app, slice_from_app by assumption.
  unfold fixed.
  rewrite unpack_ii_le_bytes by (assumption || apply in_int_Type_value).
  cbn [rbind].
  assert (Hbody : slice_to (-2) (body m ++ [x00; x00]) = body m).
  { unfold slice_to, slice_bound. cbn [Z.ltb Z.compare].
    rewrite length_app. simpl length.
    replace (Z.to_nat (Z.max 0 (Z.of_nat (length (body m) + 2) + -2)))
      with (length (body m) + 0)%nat by lia.
    rewrite firstn_app_2. simpl. apply app_nil_r. }
  rewrite Hbody. unfold __init__. rewrite Type_of_value_Type_value.
  cbn [rbind]. destruct m; reflexivity.
Qed.

(** A proper prefix of a frame is an incomplete message. *)
Lemma decode_prefix (m : RCONMessage.t) (frame p q : bytes) :
  encode m = Ok frame -> p ++ q = frame -> q <> [] ->
  decode p = Err RCONMessageError.
Proof.
  intros H Hpq Hq. pose proof (encode_length _ _ H) as Hlen.
  apply encode_Ok in H. destruct H as (Hsz & Hid & Hf).
  assert (Hql : (0 < length q)%nat) by (destruct q; [congruence|simpl; lia]).
  assert (Hpl : Z.of_nat (length p) < 4 + frame_size m).
  { rewrite <- Hlen, <- Hpq, length_app. lia. }
  unfold decode, struct.calcsize_i.
  destruct (Z.of_nat (length p) <? 4) eqn:E; [reflexivity|].
  apply Z.ltb_ge in E.
  assert (Hp : p = struct.le_bytes (frame_size m) ++ skipn 4 p).
  { rewrite <- (firstn_skipn 4 p) at 1. f_equal.
    assert (Hfn : firstn 4 (p ++ q) = firstn 4 frame) by (rewrite Hpq; reflexivity).
    rewrite firstn_app in Hfn.
    replace (4 - length p)%nat with 0%nat in Hfn by lia.
    simpl firstn in Hfn at 2. rewrite app_nil_r in Hfn. rewrite Hfn, Hf.
    reflexivity. }
  rewrite Hp. rewrite slice_to_app, slice_from_app by reflexivity.
  rewrite unpack_i_le_bytes by assumption. cbn [rbind].
  destruct (Z.of_nat (length (skipn 4 p)) <? frame_size m) eqn:E2;
    [reflexivity|].
  apply Z.ltb_ge in E2. rewrite length_skipn in E2. lia.
Qed.

(** A decoded message leaves a remainder shorter than the buffer. *)
Lemma decode_shortens (b rest : bytes) (m : RCONMessage.t) :
  decode b = Ok (m, rest) -> (length rest < length b)%nat.
Proof.
  unfold decode, struct.calcsize_i.
  destruct (Z.of_nat (length b) <? 4) eqn:E; [discriminate|].
  apply Z.ltb_ge in E.
  destruct (struct.unpack_i (slice_to 4 b)) as [size|]; [|discriminate].
  cbn [rbind].
  destruct (Z.of_nat (length (slice_from 4 b)) <? size); [discriminate|].
  destruct (struct.unpack_ii _) as [[i ty]|]; [|discriminate].
  cbn [rbind]. destruct (__init__ _ _ _); [|discriminate].
  cbn [rbind]. intros H. injection H as _ <-.
  pose proof (slice_from_length size (slice_from 4 b)) as H1.
  pose proof (slice_from_length_nonneg 4 b ltac:(lia) ltac:(lia)) as H2.
  lia.
Qed.

End Codec.

(** ** Round trip of the codec *)

(** A type code outside the enumeration is refused by the constructor,
    and so by [decode], with [ValueError]. *)
Lemma unknown_type_refused (id_ type_ : Z) (bt : RCONMessage.body_or_text) :
  ~ In type_ [0; 2; 3] -> RCONMessage.__init__ id_ type_ bt = Err ValueError.
Proof.
  intros H. unfold RCONMessage.__init__, RCONMessage.Type_of_value.
  destruct (type_ =? 0) eqn:E0; [apply Z.eqb_eq in E0; subst; exfalso; apply H; simpl; auto|].
  destruct (type_ =? 2) eqn:E2; [apply Z.eqb_eq in E2; subst; exfalso; apply H; simpl; auto|].
  destruct (type_ =? 3) eqn:E3; [apply Z.eqb_eq in E3; subst; exfalso; apply H; simpl; auto|].
  reflexivity.
Qed.

(** C1, as stated, fails: the type code 1 is not one of the named
    codes; the constructor refuses it and a frame that carries it does not
    decode. *)
Lemma round_trip_unknown_type_fails :
  ~ round_trip 0 1 [] /\
  RCONMessage.decode
    [x0a; x00; x00; x00; x00; x00; x00; x00; x01; x00; x00; x00; x00; x00]
  = Err ValueError.
Proof.
  split; [|reflexivity].
  intros (m & frame & m' & H & _). discriminate H.
Qed.

(** C1 (amended): for an id that fits a signed 32-bit integer, a type
    code that is one of the named codes 0, 2 and 3, and a body whose frame
    size fits a signed 32-bit integer, decoding the encoded message gives
    back the id, the type code and the body, with nothing left over. *)
Theorem decode_encode_round_trip (id_ type_ : Z) (body_ : bytes) :
  struct.in_int id_ = true ->
  In type_ [0; 2; 3] ->
  struct.in_int (10 + Z.of_nat (length body_)) = true ->
  round_trip id_ type_ body_.
Proof.
  intros Hid Hty Hsz.
  assert (Hm : exists ty, RCONMessage.Type_of_value type_ = Ok ty /\
                          RCONMessage.Type_value ty = type_).
  { simpl in Hty. destruct Hty as [<-|[<-|[<-|[]]]]; eexists; split; reflexivity. }
  destruct Hm as (ty & Hof & Hval).
  set (m := RCONMessage.Message id_ ty body_).
  destruct (encode_defined m Hsz Hid) as [frame Hframe].
  exists m, frame, m. repeat split; try assumption.
  - unfold RCONMessage.__init__. rewrite Hof. reflexivity.
  - rewrite <- (app_nil_r frame). apply decode_encode_app. assumption.
Qed.

Lemma decode_encode_round_trip_witness :
  struct.in_int 5 = true /\ In 2 [0; 2; 3] /\
  struct.in_int (10 + Z.of_nat (length [x73; x74; x61; x74; x75; x73])) = true /\
  round_trip 5 2 [x73; x74; x61; x74; x75; x73].
Proof.
  split; [reflexivity|]. split; [simpl; auto|]. split; [reflexivity|].
  apply (decode_encode_round_trip 5 2 [x73; x74; x61; x74; x75; x73]).
  - reflexivity.
  - simpl; auto.
  - reflexivity.
Defined.

(** ** The response buffer *)

Section Buffer.

Import _ResponseBuffer.

(** The loop stops at once on an empty buffer and on an incomplete one. *)
Lemma consume_loop_incomplete (fuel : nat) (rb : _ResponseBuffer.t) :
  _buffer rb = [] \/ RCONMessage.decode (_buffer rb) = Err RCONMessageError ->
  _consume_loop fuel rb = (rb, Ok tt).
Proof.
  intros H. destruct fuel; simpl; destruct (_buffer rb) eqn:E; try reflexivity.
  destruct H as [H|H]; [discriminate|].
  unfold _consume_step. rewrite E, H. reflexivity.
Qed.

(** A looping turn shortens the buffer. *)
Lemma consume_step_shortens (rb rb' : _ResponseBuffer.t) :
  _consume_step rb = inl rb' -> (length (_buffer rb') < length (_buffer rb))%nat.
Proof.
  unfold _consume_step.
  destruct (RCONMessage.decode (_buffer rb)) as [[m rest]|e] eqn:E.
  - apply decode_shortens in E.
    destruct (_discard_next rb); intros H; injection H as <-; exact E.
  - destruct e; discriminate.
Qed.

(** Any fuel that is at least the length of the buffer gives the same
    result: the fuel is never the reason why the loop stops. *)
Lemma consume_loop_fuel (fuel : nat) :
  forall rb, (length (_buffer rb) <= fuel)%nat ->
  _consume_loop fuel rb = _consume rb.
Proof.
  unfold _consume.
  induction fuel as [fuel IH] using (well_founded_induction lt_wf).
  intros rb Hle. destruct (_buffer rb) as [|b0 bs] eqn:E.
  - destruct fuel; simpl; rewrite E; reflexivity.
  - destruct fuel as [|fuel]; [simpl in Hle; lia|].
    simpl length. cbn [_consume_loop]. rewrite E.
    destruct (_consume_step rb) as [rb'|r] eqn:Es; [|reflexivity].
    pose proof (consume_step_shortens _ _ Es) as Hs.
    rewrite E in Hs. simpl in Hs, Hle.
    rewrite (IH fuel) by lia.
    rewrite (IH (length bs)) by lia. reflexivity.
Qed.

(** The equation of the [while] loop. *)
Lemma _consume_unfold (rb : _ResponseBuffer.t) :
  _consume rb =
  match _buffer rb with
  | [] => (rb, Ok tt)
  | _ :: _ =>
      match _consume_step rb with
      | inl rb' => _consume rb'
      | inr r => r
      end
  end.
Proof.
  unfold _consume at 1. destruct (_buffer rb) as [|b0 bs] eqn:E.
  - simpl. rewrite E. reflexivity.
  - simpl length. cbn [_consume_loop]. rewrite E.
    destruct (_consume_step rb) as [rb'|r] eqn:Es; [|reflexivity].
    apply consume_loop_fuel.
    pose proof (consume_step_shortens _ _ Es) as Hs.
    rewrite E in Hs. simpl in Hs. lia.
Qed.

(** A frame at the head of the buffer is decoded and, according to the
    discard counter, queued or dropped; the loop goes on with what
    follows. *)
Lemma consume_frame (m : RCONMessage.t) (frame rest : bytes)
  (q : list RCONMessage.t) (d : nat) :
  RCONMessage.encode m = Ok frame ->
  _consume (Buffer (frame ++ rest) q d) =
  _consume (Buffer rest (match d with O => q ++ [m] | S _ => q end) (pred d)).
Proof.
  intros H. rewrite _consume_unfold. cbn [_buffer].
  destruct (frame ++ rest) as [|b0 bs] eqn:E.
  { pose proof (encode_length _ _ H) as Hl. apply (f_equal (@length _)) in E.
    rewrite length_app in E. unfold frame_size in Hl. simpl in E. lia. }
  rewrite <- E. unfold _consume_step. cbn [_buffer _discard_next _responses].
  rewrite (decode_encode_app _ _ rest H). destruct d; reflexivity.
Qed.

(** Feeding whole frames: the first [d] messages are dropped, the others
    are queued in order, and the buffer is left empty. *)
Lemma consume_frames (ms : list RCONMessage.t) (frames : list bytes) :
  Forall2 (fun m f => RCONMessage.encode m = Ok f) ms frames ->
  forall q d,
  _consume (Buffer (concat frames) q d) =
  (Buffer [] (q ++ skipn d ms) (d - length ms), Ok tt).
Proof.
  induction 1 as [|m f ms fs Hm _ IH]; intros q d.
  - rewrite _consume_unfold. simpl. rewrite skipn_nil, app_nil_r, Nat.sub_0_r.
    reflexivity.
  - cbn [concat]. rewrite (consume_frame _ _ _ _ _ Hm), IH.
    destruct d; simpl; [rewrite <- app_assoc|]; reflexivity.
Qed.

(** While a frame is incomplete, [feed] only lengthens the buffer. *)
Lemma feed_prefix (m : RCONMessage.t) (frame p c q : bytes)
  (rs : list RCONMessage.t) (d : nat) :
  RCONMessage.encode m = Ok frame -> (p ++ c) ++ q = frame -> q <> [] ->
  feed c (Buffer p rs d) = (Buffer (p ++ c) rs d, Ok tt).
Proof.
  intros H Hpc Hq. unfold feed, _consume. cbn [_buffer _responses _discard_next].
  apply consume_loop_incomplete. right. cbn [_buffer].
  exact (decode_prefix _ _ _ _ H Hpc Hq).
Qed.

(** Feeding nothing to a buffer with no pending bytes changes nothing. *)
Lemma feed_all_nil (chunks : list bytes) (rs : list RCONMessage.t) (d : nat) :
  concat chunks = [] ->
  feed_all chunks (Buffer [] rs d) = (Buffer [] rs d, Ok tt).
Proof.
  induction chunks as [|c chunks IH]; intros H; [reflexivity|].
  simpl in H. apply app_eq_nil in H. destruct H as [-> H].
  cbn [feed_all]. unfold feed at 1. cbn. apply IH, H.
Qed.

(** Feeding the bytes of a frame in pieces, after the part [p] of it that
    is already buffered, ends as feeding the rest of it at once. *)
Lemma feed_all_pieces (m : RCONMessage.t) (frame : bytes)
  (rs : list RCONMessage.t) (d : nat) :
  RCONMessage.encode m = Ok frame ->
  forall chunks p,
  p ++ concat chunks = frame -> concat chunks <> [] ->
  feed_all chunks (Buffer p rs d) =
  (Buffer [] (match d with O => rs ++ [m] | S _ => rs end) (pred d), Ok tt).
Proof.
  intros H. induction chunks as [|c chunks IH]; intros p Hp Hne;
    [simpl in Hne; congruence|].
  cbn [concat] in Hp, Hne. cbn [feed_all].
  destruct (concat chunks) as [|b0 bs] eqn:E.
  - rewrite app_nil_r in Hp, Hne. unfold feed.
    cbn [_buffer _responses _discard_next]. rewrite Hp.
    rewrite <- (app_nil_r frame), (consume_frame _ _ _ _ _ H).
    rewrite _consume_unfold. cbn [_buffer].
    apply feed_all_nil, E.
  - rewrite (feed_prefix m frame p c (b0 :: bs) rs d H);
      [|rewrite <- app_assoc; exact Hp|discriminate].
    apply IH; [rewrite <- app_assoc; exact Hp|discriminate].
Qed.

Lemma discard_times_empty (k : nat) :
  forall b d, discard_times k (Buffer b [] d) = Buffer b [] (d + k).
Proof.
  induction k as [|k IH]; intros b d; simpl.
  - rewrite Nat.add_0_r. reflexivity.
  - unfold discard at 1. cbn. rewrite IH. f_equal. lia.
Qed.

(** The only exceptions [decode] raises. *)
Lemma decode_errors (b : bytes) (e : exn) :
  RCONMessage.decode b = Err e ->
  e = RCONMessageError \/ e = struct_error \/ e = ValueError.
Proof.
  unfold RCONMessage.decode.
  destruct (_ <? _); [intros H; injection H as <-; auto|].
  destruct (struct.unpack_i _) as [size|e1] eqn:E1.
  - cbn [rbind]. destruct (_ <? _); [intros H; injection H as <-; auto|].
    destruct (struct.unpack_ii _) as [[i ty]|e2] eqn:E2.
    + cbn [rbind]. unfold RCONMessage.__init__, RCONMessage.Type_of_value.
      destruct (ty =? 0); [discriminate|].
      destruct (ty =? 2); [discriminate|].
      destruct (ty =? 3); [discriminate|].
      cbn [rbind]. intros H; injection H as <-; auto.
    + cbn [rbind]. intros H; injection H as <-.
      apply unpack_ii_errors in E2. auto.
  - cbn [rbind]. intros H; injection H as <-.
    apply unpack_i_errors in E1. auto.
Qed.

(** [_consume] lets through what [decode] raises, [RCONMessageError]
    apart. *)
Lemma consume_loop_errors (fuel : nat) :
  forall rb rb' e, _consume_loop fuel rb = (rb', Err e) ->
  e = struct_error \/ e = ValueError.
Proof.
  induction fuel as [|fuel IH]; intros rb rb' e; simpl;
    destruct (_buffer rb) eqn:Eb; try discriminate.
  unfold _consume_step. rewrite Eb.
  destruct (RCONMessage.decode _) as [[m rest]|e1] eqn:Ed.
  - destruct (_discard_next rb); apply IH.
  - apply decode_errors in Ed.
    destruct e1; try discriminate; intros H; injection H as _ <-;
      destruct Ed as [Ed|[Ed|Ed]]; try discriminate; auto.
Qed.

Lemma feed_errors (bs : bytes) (rb rb' : _ResponseBuffer.t) (e : exn) :
  feed bs rb = (rb', Err e) -> e = struct_error \/ e = ValueError.
Proof. unfold feed, _consume. apply consume_loop_errors. Qed.

End Buffer.

(** C4: the bytes of one encoded frame, cut at any byte boundaries into
    any number of pieces fed one after the other to a buffer with no
    pending bytes, leave the buffer as feeding the whole frame at once
    does; on a fresh buffer that is the single decoded message, queued. *)
Theorem feed_split_frame (m : RCONMessage.t) (frame : bytes)
  (chunks : list bytes) (rb : _ResponseBuffer.t) :
  RCONMessage.encode m = Ok frame ->
  concat chunks = frame ->
  _ResponseBuffer._buffer rb = [] ->
  _ResponseBuffer.feed_all chunks rb = _ResponseBuffer.feed frame rb /\
  _ResponseBuffer.feed frame _ResponseBuffer.__init__ =
    (_ResponseBuffer.Buffer [] [m] 0, Ok tt).
Proof.
  intros H Hc Hb.
  assert (Hwhole : forall rs d,
    _ResponseBuffer.feed frame (_ResponseBuffer.Buffer [] rs d) =
    (_ResponseBuffer.Buffer []
       (match d with O => rs ++ [m] | S _ => rs end) (pred d), Ok tt)).
  { intros rs d. unfold _ResponseBuffer.feed.
    cbn [_ResponseBuffer._buffer _ResponseBuffer._responses
         _ResponseBuffer._discard_next app].
    rewrite <- (app_nil_r frame), (consume_frame _ _ _ _ _ H).
    rewrite _consume_unfold. reflexivity. }
  split; [|apply (Hwhole [] 0%nat)].
  destruct rb as [b rs d]. cbn in Hb. subst b. rewrite Hwhole.
  apply (feed_all_pieces m frame rs d H chunks []); [exact Hc|].
  rewrite Hc. intros ->. apply encode_length in H. unfold frame_size in H.
  simpl length in H. lia.
Qed.

Lemma feed_split_frame_witness :
  let m := RCONMessage.Message 5 RCONMessage.EXECCOMMAND
             [x73; x74; x61; x74; x75; x73] in
  let chunks := [ [x10; x00; x00]; [];
                  [x00; x05; x00; x00; x00; x02; x00; x00; x00; x73; x74];
                  [x61; x74; x75; x73; x00]; [x00] ] in
  _ResponseBuffer.feed_all chunks _ResponseBuffer.__init__ =
    (_ResponseBuffer.Buffer [] [m] 0, Ok tt).
Proof.
  intros m chunks.
  destruct (feed_split_frame m (concat chunks) chunks _ResponseBuffer.__init__)
    as [H1 H2]; [reflexivity | reflexivity | reflexivity |].
  rewrite H1. exact H2.
Defined.

(** C8: two complete frames fed together in one call to a buffer with no
    pending bytes and nothing to discard are both decoded and queued, the
    first before the second, after what was queued already. *)
Theorem feed_two_frames (m1 m2 : RCONMessage.t) (f1 f2 : bytes)
  (rb : _ResponseBuffer.t) :
  RCONMessage.encode m1 = Ok f1 ->
  RCONMessage.encode m2 = Ok f2 ->
  _ResponseBuffer._buffer rb = [] ->
  _ResponseBuffer._discard_next rb = 0%nat ->
  _ResponseBuffer.feed (f1 ++ f2) rb =
    (_ResponseBuffer.Buffer [] (_ResponseBuffer._responses rb ++ [m1; m2]) 0,
     Ok tt).
Proof.
  intros H1 H2 Hb Hd. destruct rb as [b rs d]. cbn [_ResponseBuffer._buffer _ResponseBuffer._responses
       _ResponseBuffer._discard_next] in *. subst b d.
  unfold _ResponseBuffer.feed.
    cbn [_ResponseBuffer._buffer _ResponseBuffer._responses
         _ResponseBuffer._discard_next app].
  pose proof (consume_frames [m1; m2] [f1; f2]) as Hf.
  cbn [concat] in Hf. rewrite app_nil_r in Hf. rewrite Hf.
  - reflexivity.
  - repeat constructor; assumption.
Qed.

Lemma feed_two_frames_witness :
  let m1 := RCONMessage.Message 0 RCONMessage.RESPONSE_VALUE [] in
  let m2 := RCONMessage.Message 7 RCONMessage.AUTH_RESPONSE [x6f; x6b] in
  _ResponseBuffer.feed
    ([x0a; x00; x00; x00; x00; x00; x00; x00; x00; x00; x00; x00; x00; x00]
     ++ [x0c; x00; x00; x00; x07; x00; x00; x00; x02; x00; x00; x00;
         x6f; x6b; x00; x00])
    _ResponseBuffer.__init__ =
  (_ResponseBuffer.Buffer [] [m1; m2] 0, Ok tt).
Proof.
  intros m1 m2.
  apply (feed_two_frames m1 m2 _ _ _ResponseBuffer.__init__); reflexivity.
Defined.

(** C5: [discard] on a buffer whose queue is not empty removes the oldest
    queued message and leaves the rest in order; on an empty queue it adds
    one to the discard counter, and a counter that is not 0 makes the next
    decoded message be dropped, not queued, and goes down by one.  So [k]
    calls on an empty queue drop the next [k] messages that arrive, one per
    call. *)
Theorem discard_drops (rb : _ResponseBuffer.t) (k : nat)
  (ms : list RCONMessage.t) (frames : list bytes) :
  Forall2 (fun m f => RCONMessage.encode m = Ok f) ms frames ->
  _ResponseBuffer._buffer rb = [] ->
  (forall m rest, _ResponseBuffer._responses rb = m :: rest ->
     _ResponseBuffer.discard rb =
     _ResponseBuffer.Buffer (_ResponseBuffer._buffer rb) rest
       (_ResponseBuffer._discard_next rb)) /\
  (_ResponseBuffer._responses rb = [] ->
     _ResponseBuffer.discard rb =
     _ResponseBuffer.Buffer (_ResponseBuffer._buffer rb) []
       (S (_ResponseBuffer._discard_next rb)) /\
     _ResponseBuffer.feed (concat frames) (_ResponseBuffer.discard_times k rb) =
     (_ResponseBuffer.Buffer []
        (skipn (_ResponseBuffer._discard_next rb + k) ms)
        (_ResponseBuffer._discard_next rb + k - length ms), Ok tt)).
Proof.
  intros Hf Hb. destruct rb as [b rs d]. cbn [_ResponseBuffer._buffer _ResponseBuffer._responses
       _ResponseBuffer._discard_next] in *. subst b. split.
  - intros m rest ->. reflexivity.
  - intros ->. split; [reflexivity|].
    rewrite discard_times_empty. unfold _ResponseBuffer.feed.
    cbn [_ResponseBuffer._buffer _ResponseBuffer._responses
         _ResponseBuffer._discard_next app].
    rewrite (consume_frames ms frames Hf). reflexivity.
Qed.

Lemma discard_drops_witness :
  let m1 := RCONMessage.Message 1 RCONMessage.RESPONSE_VALUE [x61] in
  let m2 := RCONMessage.Message 2 RCONMessage.RESPONSE_VALUE [x62] in
  let m3 := RCONMessage.Message 3 RCONMessage.RESPONSE_VALUE [x63] in
  let frames :=
    [ [x0b; x00; x00; x00; x01; x00; x00; x00; x00; x00; x00; x00; x61; x00; x00];
      [x0b; x00; x00; x00; x02; x00; x00; x00; x00; x00; x00; x00; x62; x00; x00];
      [x0b; x00; x00; x00; x03; x00; x00; x00; x00; x00; x00; x00; x63; x00; x00] ] in
  _ResponseBuffer.feed (concat frames)
    (_ResponseBuffer.discard_times 2 _ResponseBuffer.__init__) =
  (_ResponseBuffer.Buffer [] [m3] 0, Ok tt).
Proof.
  intros m1 m2 m3 frames.
  destruct (discard_drops _ResponseBuffer.__init__ 2 [m1; m2; m3] frames)
    as [_ H].
  - repeat constructor.
  - reflexivity.
  - destruct (H eq_refl) as [_ H']. exact H'.
Defined.

(** ** The connection *)

Section Connection.

Import RCON.

(** [close] in closed form. *)
Lemma close_eq (s : State) :
  close s = if truthy (_socket (self s))
            then (after_close s, Return tt)
            else (s, Raise (RCONError Cannot_close)).
Proof.
  unfold close, bind, get_self. destruct (_socket (self s)); reflexivity.
Qed.

(** [_read] in closed form, by the state of the socket and the next event
    of the [recv] script. *)
Lemma _read_eq (s : State) :
  _read s =
  match _socket (self s) with
  | None => (s, Raise AttributeError)
  | Some _ =>
      match status (env s) with
      | Sock_connected =>
          match recvs (env s) with
          | [] => (s, Hang)
          | Recv_error :: _ =>
              (after_close (after_recv s), Raise RCONCommunicationError)
          | Recv_bytes [] :: _ =>
              (after_close (after_recv s), Raise RCONCommunicationError)
          | Recv_bytes (b :: bs) :: _ =>
              let (rb', r) := _ResponseBuffer.feed (b :: bs) (_responses (self s)) in
              of_result r (mkState (set_responses rb' (self s)) (env (after_recv s)))
          end
      | _ => (after_close s, Raise RCONCommunicationError)
      end
  end.
Proof.
  destruct s as [c e]. destruct c as [ad pw tm au so cl rb].
  destruct e as [ac st rs sn se ck tk]. cbn [self env _socket status recvs].
  destruct so as [sock|]; [|reflexivity].
  destruct st; try reflexivity.
  destruct rs as [|[[|b bs]|] rest]; reflexivity.
Qed.

Lemma same_settings_refl (c : t) : same_settings c c.
Proof. repeat split. Qed.

Lemma same_settings_trans (c1 c2 c3 : t) :
  same_settings c1 c2 -> same_settings c2 c3 -> same_settings c1 c3.
Proof.
  unfold same_settings. intros (A1 & A2 & A3 & A4 & A5) (B1 & B2 & B3 & B4 & B5).
  repeat split; congruence.
Qed.

(** How [_read] ends: a normal return has taken one event from the
    script and left the connection open as it was; a communication error
    comes with the connection closed; [RCONError] itself and
    [RCONTimeoutError] are never raised. *)
Lemma _read_inv (s s' : State) (o : outcome unit) :
  _read s = (s', o) ->
  same_settings (self s) (self s') /\
  match o with
  | Return _ =>
      _closed (self s') = _closed (self s) /\
      length (recvs (env s)) = S (length (recvs (env s')))
  | Raise RCONCommunicationError =>
      _closed (self s') = true /\ status (env s') = Sock_closed
  | Raise (RCONError _) | Raise RCONTimeoutError => False
  | Raise _ => _closed (self s') = _closed (self s)
  | Hang => s' = s
  end.
Proof.
  rewrite _read_eq. destruct s as [c e].
  destruct c as [ad pw tm au so cl rb]. destruct e as [ac st rs sn se ck tk].
  cbn [self env _socket status recvs _responses].
  destruct so as [sock|];
    [|intros H; injection H as <- <-; split; [apply same_settings_refl|reflexivity]].
  destruct st; try (intros H; injection H as <- <-; repeat split).
  destruct rs as [|[[|b bs]|] rest];
    try (intros H; injection H as <- <-; repeat split).
  destruct (_ResponseBuffer.feed (b :: bs) rb) as [rb' [[]|e]] eqn:Ef;
    unfold of_result; intros H; injection H as <- <-.
  - repeat split.
  - apply feed_errors in Ef. destruct Ef as [-> | ->]; repeat split.
Qed.

(** The loop of [_receive], in closed form. *)
Lemma _receive_loop_S (fuel : nat) (count ts : Z) (rs : list RCONMessage.t)
  (s : State) :
  _receive_loop (S fuel) count ts rs s =
  match _timeout (self s) with
  | None => turn fuel count ts rs s
  | Some t =>
      if clock (env s) (ticks (env s)) - ts <? t
      then turn fuel count ts rs (after_tick s)
      else time_is_up (after_tick s)
  end.
Proof.
  assert (Hbody : forall s1,
    (_read ;;
     r <- try_except
            (response <- on_responses _ResponseBuffer.pop ;; ret (Some response))
            is_RCONError (ret None) ;;
     match r with
     | None => _receive_loop fuel count ts rs
     | Some response =>
         if Z.of_nat (length (rs ++ [response])) =? count
         then ret (rs ++ [response])
         else _receive_loop fuel count ts (rs ++ [response])
     end) s1 = turn fuel count ts rs s1).
  { intros s1. unfold turn. unfold bind at 1.
    destruct (_read s1) as [s2 [[]|e|]]; try reflexivity.
    destruct s2 as [[ad pw tm au so cl [b q d]] e2].
    destruct q as [|m q]; [reflexivity|].
    unfold bind, try_except, on_responses, _ResponseBuffer.pop, after_pop.
    cbn [self env _responses _ResponseBuffer._responses of_result ret
         is_RCONError set_responses _ResponseBuffer._buffer
         _ResponseBuffer._discard_next tl _address _password _timeout
         _authenticated _socket _closed].
    destruct (Z.of_nat (length (rs ++ [m])) =? count); reflexivity. }
  cbn [_receive_loop].
  unfold bind at 1. unfold get_self at 1. cbn iota.
  destruct (_timeout (self s)) as [t|].
  - unfold bind at 1. unfold bind at 1. unfold monotonic at 1. cbn iota beta.
    unfold ret at 1. cbn iota.
    fold (after_tick s).
    destruct (clock (env s) (ticks (env s)) - ts <? t); [|reflexivity].
    apply Hbody.
  - unfold bind at 1. unfold ret at 1. cbn iota. apply Hbody.
Qed.

Lemma _receive_loop_O (count ts : Z) (rs : list RCONMessage.t) (s : State) :
  _receive_loop 0 count ts rs s =
  match _timeout (self s) with
  | None => (s, Hang)
  | Some t =>
      if clock (env s) (ticks (env s)) - ts <? t
      then (after_tick s, Hang)
      else time_is_up (after_tick s)
  end.
Proof.
  cbn [_receive_loop]. unfold bind at 1. unfold get_self at 1. cbn iota.
  destruct (_timeout (self s)) as [t|]; [|reflexivity].
  unfold bind at 1. unfold bind at 1. unfold monotonic at 1. cbn iota beta.
  unfold ret at 1. cbn iota. fold (after_tick s).
  destruct (clock (env s) (ticks (env s)) - ts <? t); reflexivity.
Qed.

Lemma time_is_up_eq (s : State) :
  time_is_up s = if truthy (_socket (self s))
                 then (after_close s, Raise RCONTimeoutError)
                 else (s, Raise (RCONError Cannot_close)).
Proof.
  unfold time_is_up, bind. rewrite close_eq.
  destruct (truthy (_socket (self s))); reflexivity.
Qed.

Lemma receive_post_weaken (count : Z) (s s1 s' : State)
  (o : outcome (list RCONMessage.t)) :
  same_settings (self s) (self s1) ->
  _closed (self s1) = _closed (self s) ->
  receive_post count s1 s' o -> receive_post count s s' o.
Proof.
  unfold receive_post. intros Hs Hc [H1 H2].
  split; [exact (same_settings_trans _ _ _ Hs H1)|].
  destruct Hs as (_ & _ & A3 & _ & A5).
  destruct o as [ms|[]|]; try exact I.
  - destruct H2 as [H2 H3]. split; [exact H2|congruence].
  - congruence.
  - exact H2.
  - destruct H2 as (H2 & H3 & H4). repeat split; congruence.
Qed.

Lemma time_is_up_post (count : Z) (s s' : State)
  (o : outcome (list RCONMessage.t)) (t : Z) :
  _timeout (self s) = Some t ->
  time_is_up (after_tick s) = (s', o) -> receive_post count s s' o.
Proof.
  intros Ht. rewrite time_is_up_eq. unfold receive_post.
  destruct (_socket (self s)) eqn:Es; cbn [after_tick self truthy];
    rewrite Es; cbn [truthy]; intros H; injection H as <- <-.
  - split; [repeat split|]. repeat split. congruence.
  - split; [repeat split|reflexivity].
Qed.

(** What holds when the loop of [_receive] ends, whatever the fuel. *)
Lemma receive_loop_inv (fuel : nat) :
  forall count ts rs s s' o,
  _receive_loop fuel count ts rs s = (s', o) -> receive_post count s s' o.
Proof.
  induction fuel as [|fuel IH]; intros count ts rs s s' o.
  - rewrite _receive_loop_O. destruct (_timeout (self s)) as [t|] eqn:Et.
    + destruct (_ <? _).
      * intros H; injection H as <- <-. split; [repeat split|exact I].
      * apply (time_is_up_post _ _ _ _ _ Et).
    + intros H; injection H as <- <-. split; [repeat split|exact I].
  - rewrite _receive_loop_S.
    assert (Hturn : forall s1, same_settings (self s) (self s1) ->
      _closed (self s1) = _closed (self s) ->
      turn fuel count ts rs s1 = (s', o) -> receive_post count s s' o).
    { intros s1 Hs1 Hc1. unfold turn. destruct (_read s1) as [s2 o2] eqn:Er.
      apply _read_inv in Er. destruct Er as [Hs2 Ho2].
      pose proof (same_settings_trans _ _ _ Hs1 Hs2) as Hs12.
      assert (Hpop : same_settings (self s) (self (after_pop s2))).
      { destruct Hs12 as (A1 & A2 & A3 & A4 & A5). repeat split; assumption. }
      destruct o2 as [[]|e2|].
      - destruct Ho2 as [Hc2 _].
        destruct (_ResponseBuffer._responses (_responses (self s2))) as [|m q].
        + intros H. apply IH in H.
          apply (receive_post_weaken _ _ s2); [exact Hs12|congruence|exact H].
        + destruct (Z.of_nat (length (rs ++ [m])) =? count) eqn:Ec.
          * intros H; injection H as <- <-. split; [exact Hpop|].
            apply Z.eqb_eq in Ec. split; [exact Ec|]. cbn. congruence.
          * intros H. apply IH in H.
            apply (receive_post_weaken _ _ (after_pop s2));
              [exact Hpop|cbn; congruence|exact H].
      - intros H; injection H as <- <-. split; [exact Hs12|].
        destruct e2; try exact I; tauto.
      - intros H; injection H as <- <-. split; [exact Hs12|exact I]. }
    destruct (_timeout (self s)) as [t|] eqn:Et.
    + destruct (_ <? _).
      * apply Hturn; repeat split.
      * apply (time_is_up_post _ _ _ _ _ Et).
    + apply Hturn; repeat split.
Qed.

(** A fuel above the length of the [recv] script is never used up: the
    loop gives the same result with any such fuel. *)
Lemma _receive_loop_fuel (f1 : nat) :
  forall f2 count ts rs s,
  (length (recvs (env s)) < f1)%nat -> (length (recvs (env s)) < f2)%nat ->
  _receive_loop f1 count ts rs s = _receive_loop f2 count ts rs s.
Proof.
  induction f1 as [|f1 IH]; intros f2 count ts rs s H1 H2; [lia|].
  destruct f2 as [|f2]; [lia|]. rewrite !_receive_loop_S.
  assert (Hturn : forall rs s1, recvs (env s1) = recvs (env s) ->
            turn f1 count ts rs s1 = turn f2 count ts rs s1).
  { intros rs1 s1 Hr. unfold turn. destruct (_read s1) as [s2 o2] eqn:Er.
    apply _read_inv in Er. destruct Er as [_ Ho2].
    destruct o2 as [[]|e2|]; try reflexivity.
    destruct Ho2 as [_ Hl]. rewrite Hr in Hl.
    destruct (_ResponseBuffer._responses (_responses (self s2))) as [|m q].
    - apply IH; lia.
    - destruct (_ =? _); [reflexivity|]. apply IH; cbn; lia. }
  destruct (_timeout (self s)); [destruct (_ <? _)|]; try reflexivity;
    apply Hturn; reflexivity.
Qed.

(** [_receive] in terms of its loop. *)
Lemma _receive_eq (count : Z) (s : State) :
  _receive count s =
  _receive_loop (S (length (recvs (env s)))) count
    (clock (env s) (ticks (env s))) [] (after_tick s).
Proof. reflexivity. Qed.

Lemma _receive_post (count : Z) (s s' : State)
  (o : outcome (list RCONMessage.t)) :
  _receive count s = (s', o) -> receive_post count s s' o.
Proof.
  rewrite _receive_eq. intros H. apply receive_loop_inv in H.
  apply (receive_post_weaken _ _ (after_tick s)); [repeat split|reflexivity|].
  exact H.
Qed.

Lemma ascii_encode_errors (text : string) :
  forall e, RCONMessage.ascii_encode text = Err e -> e = UnicodeEncodeError.
Proof.
  induction text as [|c text IH]; intros e; cbn; [discriminate|].
  destruct (_ <? _)%N; [|intros H; injection H as <-; reflexivity].
  destruct (RCONMessage.ascii_encode text); cbn; [discriminate|].
  intros H; injection H as <-. apply IH. reflexivity.
Qed.

(** [_request] writes no attribute of the connection, and it never
    raises an [RCONError]. *)
Lemma _request_inv (ty : RCONMessage.Type_) (b : RCONMessage.body_or_text)
  (s s' : State) (o : outcome unit) :
  _request ty b s = (s', o) ->
  self s' = self s /\ match o with Raise e => is_RCONError e = false | _ => True end.
Proof.
  unfold _request, bind, of_result, the_socket, socket_sendall.
  destruct (RCONMessage.__init__ _ _ _) as [m|e] eqn:Ei.
  - destruct (_socket (self s)); [|intros H; injection H as <- <-; auto].
    destruct (RCONMessage.encode m) as [data|e] eqn:Ee.
    + destruct (status (env s)); try (intros H; injection H as <- <-; auto).
      destruct (sends (env s)) as [|[] rest]; intros H; injection H as <- <-;
        auto.
    + intros H; injection H as <- <-. split; [reflexivity|].
      unfold RCONMessage.encode, struct.pack_iii in Ee.
      destruct (_ && _) in Ee; [discriminate|]. cbn in Ee.
      injection Ee as <-. reflexivity.
  - intros H; injection H as <- <-. split; [reflexivity|].
    unfold RCONMessage.__init__, RCONMessage.Type_of_value in Ei.
    destruct ty; cbn in Ei; destruct b as [b|txt]; try discriminate.
    all: destruct (RCONMessage.ascii_encode txt) eqn:Ea; cbn in Ei;
      [discriminate|]; injection Ei as <-;
      rewrite (ascii_encode_errors _ _ Ea); reflexivity.
Qed.

(** [authenticate] in closed form. *)
Lemma authenticate_eq (s : State) :
  authenticate s =
  if _closed (self s) || negb (truthy (_socket (self s)))
  then (s, Raise (RCONError Cannot_authenticate))
  else
    match _request RCONMessage.AUTH (_password (self s)) s with
    | (s1, Return _) =>
        match _receive 2 s1 with
        | (s2, Return [_; response]) =>
            if RCONMessage.id response =? -1
            then (close ;; raise (RCONAuthenticationError false)) s2
            else (mkState (set_authenticated true (self s2)) (env s2), Return tt)
        | (s2, Return _) => (s2, Raise ValueError)
        | (s2, Raise e) =>
            if is_RCONCommunicationError e
            then (s2, Raise (RCONAuthenticationError true))
            else (s2, Raise e)
        | (s2, Hang) => (s2, Hang)
        end
    | (s1, Raise e) => (s1, Raise e)
    | (s1, Hang) => (s1, Hang)
    end.
Proof.
  unfold authenticate. unfold bind at 1. unfold get_self at 1. cbn iota.
  destruct (_closed (self s) || negb (truthy (_socket (self s))));
    [reflexivity|].
  unfold bind at 1.
  destruct (_request RCONMessage.AUTH (_password (self s)) s) as [s1 [[]|e|]];
    try reflexivity.
  unfold bind at 1, try_except.
  destruct (_receive 2 s1) as [s2 [ms|e|]]; try reflexivity.
  - destruct ms as [|m1 [|m2 [|m3 ms]]]; try reflexivity.
    destruct (RCONMessage.id m2 =? -1); reflexivity.
  - destruct (is_RCONCommunicationError e); reflexivity.
Qed.

(** Past its guard, [authenticate] never raises the base [RCONError]. *)
Lemma authenticate_no_base_error (s s' : State) (msg : rcon_error_msg) :
  _closed (self s) || negb (truthy (_socket (self s))) = false ->
  authenticate s <> (s', Raise (RCONError msg)).
Proof.
  intros Hg. rewrite authenticate_eq, Hg.
  apply orb_false_elim in Hg. destruct Hg as [_ Hsock].
  apply negb_false_iff in Hsock.
  destruct (_request RCONMessage.AUTH (_password (self s)) s)
    as [s1 o1] eqn:Eq.
  apply _request_inv in Eq. destruct Eq as [Hself Ho1].
  destruct o1 as [[]|e|]; [| |discriminate].
  - destruct (_receive 2 s1) as [s2 o2] eqn:Er.
    apply _receive_post in Er. destruct Er as [(_ & _ & _ & _ & Hs) Ho2].
    destruct o2 as [ms|e|]; [| |discriminate].
    + destruct ms as [|m1 [|m2 [|m3 ms]]]; try discriminate.
      destruct (_ =? _); [|discriminate].
      unfold bind. rewrite close_eq, Hs, Hself, Hsock. discriminate.
    + destruct e; cbn [is_RCONCommunicationError]; try discriminate.
      rewrite Hself in Ho2. rewrite Ho2 in Hsock. discriminate.
  - intros H. injection H as _ ->. discriminate.
Qed.

End Connection.

(** ** The state machine of the connection *)

Section Lifecycle.

Import RCON.

(** C2: on a connection that passes the guard, once the [AUTH] request is
    sent and [_receive(2)] has ended: with two replies of which the second
    has id -1, the connection is closed and [authenticate] raises
    [RCONAuthenticationError] with [banned] false; with a communication
    error, [authenticate] raises [RCONAuthenticationError] with [banned]
    true and the connection is closed; with two replies of which the second
    has another id, [_authenticated] is set and [authenticate] returns.
    Any other exception of the wait, and a wait that never ends, pass
    through. *)
Theorem authenticate_outcomes (s s1 s2 : State)
  (r : outcome (list RCONMessage.t)) :
  _closed (self s) = false ->
  truthy (_socket (self s)) = true ->
  _request RCONMessage.AUTH (_password (self s)) s = (s1, Return tt) ->
  _receive 2 s1 = (s2, r) ->
  match r with
  | Return [_; response] =>
      if RCONMessage.id response =? -1
      then authenticate s =
             (after_close s2, Raise (RCONAuthenticationError false)) /\
           _closed (self (after_close s2)) = true
      else authenticate s =
             (mkState (set_authenticated true (self s2)) (env s2), Return tt) /\
           _authenticated (set_authenticated true (self s2)) = true
  | Return _ => False
  | Raise RCONCommunicationError =>
      authenticate s = (s2, Raise (RCONAuthenticationError true)) /\
      _closed (self s2) = true
  | Raise e => authenticate s = (s2, Raise e)
  | Hang => authenticate s = (s2, Hang)
  end.
Proof.
  intros Hc Hsock Hreq Hrecv. rewrite authenticate_eq, Hc, Hsock, Hreq, Hrecv.
  cbn [orb negb].
  pose proof (_request_inv _ _ _ _ _ Hreq) as [Hself _].
  pose proof (_receive_post _ _ _ _ Hrecv) as [(_ & _ & _ & _ & Hs) Hr].
  destruct r as [ms|e|]; [| |reflexivity].
  - destruct Hr as [Hlen _].
    destruct ms as [|m1 [|m2 [|m3 ms]]]; try (simpl in Hlen; lia).
    destruct (RCONMessage.id m2 =? -1); [|split; reflexivity].
    unfold bind. rewrite close_eq, Hs, Hself, Hsock. split; reflexivity.
  - destruct e; cbn [is_RCONCommunicationError]; try reflexivity.
    split; [reflexivity|apply Hr].
Qed.

Lemma authenticate_outcomes_witness :
  let s := sample_state None false
             [Recv_bytes empty_reply_frame; Recv_bytes auth_reply_frame] in
  snd (authenticate s) = Return tt /\
  _authenticated (self (fst (authenticate s))) = true.
Proof.
  intros s.
  pose (q := _request RCONMessage.AUTH (_password (self s)) s).
  pose (r := _receive 2 (fst q)).
  pose proof
    (authenticate_outcomes s (fst q) (fst r) (snd r)
       eq_refl eq_refl eq_refl eq_refl
     : authenticate s =
         (mkState (set_authenticated true (self (fst r))) (env (fst r)),
          Return tt) /\
       _authenticated (set_authenticated true (self (fst r))) = true)
    as [H _].
  rewrite H. split; reflexivity.
Defined.

(** C7, as stated, fails: on a connection that is already authenticated
    [authenticate] does not raise [RCONError]; it sends the request again
    and, with the two replies, returns. *)
Lemma authenticate_when_authenticated :
  let s := sample_state None true
             [Recv_bytes empty_reply_frame; Recv_bytes auth_reply_frame] in
  lifecycle_of (self s) = Authenticated /\
  snd (authenticate s) = Return tt /\
  ~ (exists msg, snd (authenticate s) = Raise (RCONError msg)).
Proof.
  intros s. split; [reflexivity|]. split; [reflexivity|].
  intros [msg H]. discriminate H.
Qed.

(** C7 (amended): [authenticate] fails with the state error [RCONError]
    exactly when the connection is unconnected or closed, and then leaves
    the state as it is; from the states connected and authenticated it
    never fails with that error. *)
Theorem authenticate_invalid_state (s : State) :
  ((exists msg, snd (authenticate s) = Raise (RCONError msg)) <->
   (lifecycle_of (self s) = Unconnected \/ lifecycle_of (self s) = Closed)) /\
  (lifecycle_of (self s) = Unconnected \/ lifecycle_of (self s) = Closed ->
   authenticate s = (s, Raise (RCONError Cannot_authenticate))).
Proof.
  assert (Hguard :
    _closed (self s) || negb (truthy (_socket (self s))) = true <->
    (lifecycle_of (self s) = Unconnected \/ lifecycle_of (self s) = Closed)).
  { unfold lifecycle_of.
    destruct (_closed (self s)), (_socket (self s)), (_authenticated (self s));
      cbn; split; intros H; auto; try discriminate;
      destruct H; discriminate. }
  split; [split|].
  - intros [msg H].
    destruct (_closed (self s) || negb (truthy (_socket (self s)))) eqn:Eg;
      [apply Hguard; reflexivity|].
    exfalso. apply (authenticate_no_base_error s (fst (authenticate s)) msg Eg).
    rewrite <- H. apply surjective_pairing.
  - intros H. apply Hguard in H. rewrite authenticate_eq, H.
    exists Cannot_authenticate. reflexivity.
  - intros H. apply Hguard in H. rewrite authenticate_eq, H. reflexivity.
Qed.

Lemma authenticate_invalid_state_witness :
  let s := mkState (__init__ ("localhost"%string, 27015)
                      (RCONMessage.Text "pw") None)
             (mkEnv true Sock_new [] [] [] sample_clock 0) in
  authenticate s = (s, Raise (RCONError Cannot_authenticate)).
Proof.
  intros s. apply (proj2 (authenticate_invalid_state s)). left. reflexivity.
Defined.

(** C9: when [connect], [authenticate] or [close] fails with the state
    error [RCONError], the connection and its socket are as they were
    before the call: no attribute is written and nothing is sent or
    read. *)
Theorem invalid_state_leaves_state (s s' : State) (msg : rcon_error_msg) :
  connect s = (s', Raise (RCONError msg)) \/
  authenticate s = (s', Raise (RCONError msg)) \/
  close s = (s', Raise (RCONError msg)) ->
  s' = s.
Proof.
  intros [H|[H|H]].
  - unfold connect, bind, get_self, raise, socket_socket, set_self,
      socket_connect in H.
    destruct (_closed (self s) || truthy (_socket (self s)));
      [injection H as <- _; reflexivity|].
    cbn in H. destruct (accepts (env s)); discriminate H.
  - destruct (_closed (self s) || negb (truthy (_socket (self s)))) eqn:Eg.
    + rewrite authenticate_eq, Eg in H. injection H as <- _. reflexivity.
    + exfalso. exact (authenticate_no_base_error s s' msg Eg H).
  - rewrite close_eq in H. destruct (truthy (_socket (self s)));
      [discriminate H|]. injection H as <- _. reflexivity.
Qed.

Lemma invalid_state_leaves_state_witness :
  let s := sample_state None false [Recv_bytes empty_reply_frame] in
  snd (connect s) = Raise (RCONError Cannot_connect) /\ fst (connect s) = s.
Proof.
  intros s. split; [reflexivity|].
  apply (invalid_state_leaves_state s (fst (connect s)) Cannot_connect).
  left. reflexivity.
Defined.

End Lifecycle.

(** ** The receive loop *)

Section Receive.

Import RCON.


(** A failed or zero-byte [recv], or a socket that is not connected, makes
    [_read] close the connection and raise [RCONCommunicationError]. *)
Lemma read_failure_closes (s : State) :
  truthy (_socket (self s)) = true ->
  status (env s) <> Sock_connected \/
  (exists rest, recvs (env s) = Recv_error :: rest) \/
  (exists rest, recvs (env s) = Recv_bytes [] :: rest) ->
  exists s', _read s = (s', Raise RCONCommunicationError) /\
             _closed (self s') = true /\ status (env s') = Sock_closed.
Proof.
  intros Hsock H. rewrite _read_eq.
  destruct (_socket (self s)); [|discriminate Hsock].
  destruct (status (env s)) eqn:Est;
    try (eexists; repeat split; fail).
  destruct H as [H|[[rest H]|[rest H]]]; [congruence| |];
    rewrite H; eexists; repeat split.
Qed.

(** The loop takes one event from the [recv] script for every message it
    still has to collect: what is queued already saves no read. *)
Lemma receive_loop_reads (fuel : nat) :
  forall count ts rs s s' ms,
  _receive_loop fuel count ts rs s = (s', Return ms) ->
  Z.of_nat (length rs) < count ->
  Z.of_nat (length (recvs (env s'))) + (count - Z.of_nat (length rs))
  <= Z.of_nat (length (recvs (env s))).
Proof.
  induction fuel as [|fuel IH]; intros count ts rs s s' ms.
  - rewrite _receive_loop_O, time_is_up_eq.
    destruct (_timeout (self s)); [|discriminate].
    destruct (_ <? _); [discriminate|].
    destruct (truthy _); discriminate.
  - rewrite _receive_loop_S, time_is_up_eq.
    assert (Hturn : forall s1, recvs (env s1) = recvs (env s) ->
      turn fuel count ts rs s1 = (s', Return ms) ->
      Z.of_nat (length rs) < count ->
      Z.of_nat (length (recvs (env s'))) + (count - Z.of_nat (length rs))
      <= Z.of_nat (length (recvs (env s)))).
    { intros s1 Hr. unfold turn. destruct (_read s1) as [s2 o2] eqn:Er.
      apply _read_inv in Er. destruct Er as [_ Ho2].
      destruct o2 as [[]|e2|]; try discriminate.
      destruct Ho2 as [_ Hl]. rewrite Hr in Hl.
      destruct (_ResponseBuffer._responses (_responses (self s2))) as [|m q].
      - intros H Hlt. apply IH in H; lia.
      - destruct (_ =? _) eqn:Ec.
        + intros H Hlt. injection H as <- <-. apply Z.eqb_eq in Ec.
          rewrite length_app in Ec. cbn in *. lia.
        + intros H Hlt. apply Z.eqb_neq in Ec. rewrite length_app in Ec.
          apply IH in H; rewrite ?length_app in *; cbn in *; lia. }
    destruct (_timeout (self s)); [destruct (_ <? _)|];
      try (apply Hturn; reflexivity).
    destruct (truthy _); discriminate.
Qed.

(** A call of [_receive] that returns has made at least [count] reads. *)
Lemma receive_reads (count : Z) (s s' : State) (ms : list RCONMessage.t) :
  _receive count s = (s', Return ms) -> 0 < count ->
  Z.of_nat (length (recvs (env s'))) + count
  <= Z.of_nat (length (recvs (env s))).
Proof.
  rewrite _receive_eq. intros H Hc. apply receive_loop_reads in H.
  - cbn in H. lia.
  - cbn. lia.
Qed.

(** C3 on the code: the two replies come in one [recv] and are both
    queued after the first read; [_receive(2)] takes one of them, reads
    again, and so fails when the peer has closed the stream, or never
    returns when the peer sends nothing more. *)
Theorem receive_reads_past_queued_replies :
  let both := empty_reply_frame ++ auth_reply_frame in
  let s := sample_state None false [Recv_bytes both; Recv_bytes []] in
  let s_quiet := sample_state None false [Recv_bytes both] in
  _ResponseBuffer._responses (_responses (self (fst (_read s)))) =
    [empty_reply; auth_reply] /\
  snd (_receive 2 s) = Raise RCONCommunicationError /\
  _closed (self (fst (_receive 2 s))) = true /\
  _ResponseBuffer._responses (_responses (self (fst (_receive 2 s)))) =
    [auth_reply] /\
  snd (_receive 2 s_quiet) = Hang.
Proof. repeat split. Qed.

(** When a test of the loop, the first or a later one, finds the time up,
    the loop ends there: the connection is closed and [RCONTimeoutError]
    is raised. *)
Lemma receive_loop_time_up (fuel : nat) (count ts t : Z)
  (rs : list RCONMessage.t) (s : State) :
  _timeout (self s) = Some t ->
  truthy (_socket (self s)) = true ->
  t <= clock (env s) (ticks (env s)) - ts ->
  _receive_loop fuel count ts rs s =
  (after_close (after_tick s), Raise RCONTimeoutError).
Proof.
  intros Ht Hsock Hup.
  assert (E : (clock (env s) (ticks (env s)) - ts <? t) = false)
    by (apply Z.ltb_ge; lia).
  destruct fuel as [|fuel];
    [rewrite _receive_loop_O|rewrite _receive_loop_S];
    rewrite Ht, E, time_is_up_eq; cbn [after_tick self]; rewrite Hsock;
    reflexivity.
Qed.

(** However the loop ends, if not with [RCONCommunicationError] or
    [RCONTimeoutError], [_closed] is as it was. *)
Lemma receive_loop_open (fuel : nat) :
  forall count ts rs s s' o,
  _receive_loop fuel count ts rs s = (s', o) ->
  o <> Raise RCONCommunicationError -> o <> Raise RCONTimeoutError ->
  _closed (self s') = _closed (self s).
Proof.
  assert (Hup : forall s s' (o : outcome (list RCONMessage.t)),
            time_is_up (after_tick s) = (s', o) ->
            o <> Raise RCONTimeoutError ->
            _closed (self s') = _closed (self s)).
  { intros s s' o. rewrite time_is_up_eq.
    destruct (truthy _); intros H; injection H as <- <-;
      [congruence|reflexivity]. }
  induction fuel as [|fuel IH]; intros count ts rs s s' o.
  - rewrite _receive_loop_O. destruct (_timeout (self s)) as [t|].
    + destruct (_ <? _).
      * intros H; injection H as <- <-. reflexivity.
      * intros H _ Hn. exact (Hup _ _ _ H Hn).
    + intros H; injection H as <- <-. reflexivity.
  - rewrite _receive_loop_S.
    assert (Hturn : forall s1, _closed (self s1) = _closed (self s) ->
      turn fuel count ts rs s1 = (s', o) ->
      o <> Raise RCONCommunicationError -> o <> Raise RCONTimeoutError ->
      _closed (self s') = _closed (self s)).
    { intros s1 Hc1. unfold turn. destruct (_read s1) as [s2 o2] eqn:Er.
      apply _read_inv in Er. destruct Er as [_ Ho2].
      destruct o2 as [[]|e2|].
      - destruct Ho2 as [Hc2 _].
        destruct (_ResponseBuffer._responses (_responses (self s2))) as [|m q].
        + intros H Hn1 Hn2. rewrite (IH _ _ _ _ _ _ H Hn1 Hn2). congruence.
        + destruct (_ =? _).
          * intros H; injection H as <- <-. intros _ _. cbn. congruence.
          * intros H Hn1 Hn2. rewrite (IH _ _ _ _ _ _ H Hn1 Hn2). cbn.
            congruence.
      - intros H; injection H as <- <-. intros Hn1 Hn2.
        destruct e2; try congruence; contradiction.
      - intros H; injection H as <- <-. intros _ _. congruence. }
    destruct (_timeout (self s)) as [t|].
    + destruct (_ <? _).
      * apply Hturn. reflexivity.
      * intros H _ Hn. exact (Hup _ _ _ H Hn).
    + apply Hturn. reflexivity.
Qed.

(** C6, as stated, fails in two ways.  A frame with a type code that is
    not in the enumeration makes [_receive] raise [ValueError] and leaves
    the connection open: an error of the receive path that does not close.
    And with a timeout of 3 ticks and a peer that sends nothing, [_receive]
    does not raise [RCONTimeoutError]: the [recv] it is in never returns,
    and the connection stays open. *)
Lemma receive_errors_leave_open :
  let bad := [x0a; x00; x00; x00; x00; x00; x00; x00; x01; x00; x00; x00;
              x00; x00] in
  let s_bad := sample_state None false [Recv_bytes bad] in
  let s_silent := sample_state (Some 3) false [] in
  (snd (_receive 1 s_bad) = Raise ValueError /\
   _closed (self (fst (_receive 1 s_bad))) = false /\
   status (env (fst (_receive 1 s_bad))) = Sock_connected) /\
  (snd (_receive 1 s_silent) = Hang /\
   snd (_receive 1 s_silent) <> Raise RCONTimeoutError /\
   _closed (self (fst (_receive 1 s_silent))) = false).
Proof. repeat split. discriminate. Qed.

(** C6 (amended): an [RCONCommunicationError] or [RCONTimeoutError] that
    comes out of [_receive] comes with the connection closed: [_closed] is
    set and the socket is closed; however else [_receive] ends, [_closed]
    is as it was.  A failed or zero-byte read, or a read on a socket that
    is not connected, closes the connection and raises
    [RCONCommunicationError]; and a test of the loop, the first or a later
    one, that finds the timeout up closes the connection and raises
    [RCONTimeoutError]. *)
Theorem receive_failure_closes (count : Z) (s s' : State)
  (o : outcome (list RCONMessage.t)) :
  _receive count s = (s', o) ->
  (o = Raise RCONCommunicationError \/ o = Raise RCONTimeoutError ->
   _closed (self s') = true /\ status (env s') = Sock_closed) /\
  (o <> Raise RCONCommunicationError -> o <> Raise RCONTimeoutError ->
   _closed (self s') = _closed (self s)) /\
  (forall s1, truthy (_socket (self s1)) = true ->
     status (env s1) <> Sock_connected \/
     (exists rest, recvs (env s1) = Recv_error :: rest) \/
     (exists rest, recvs (env s1) = Recv_bytes [] :: rest) ->
     exists s2, _read s1 = (s2, Raise RCONCommunicationError) /\
                _closed (self s2) = true /\ status (env s2) = Sock_closed) /\
  (forall fuel ts rs s1 t, _timeout (self s1) = Some t ->
     truthy (_socket (self s1)) = true ->
     t <= clock (env s1) (ticks (env s1)) - ts ->
     _receive_loop fuel count ts rs s1 =
       (after_close (after_tick s1), Raise RCONTimeoutError) /\
     _closed (self (after_close (after_tick s1))) = true /\
     status (env (after_close (after_tick s1))) = Sock_closed).
Proof.
  intros H. split; [|split; [|split]].
  - apply _receive_post in H. destruct H as [_ H].
    intros [-> | ->]; [exact H|]. destruct H as (H1 & H2 & _). auto.
  - rewrite _receive_eq in H. intros Hn1 Hn2.
    exact (receive_loop_open _ _ _ _ _ _ _ H Hn1 Hn2).
  - exact read_failure_closes.
  - intros fuel ts rs s1 t Ht Hsock Hup.
    split; [apply (receive_loop_time_up fuel count ts t rs s1); assumption|].
    split; reflexivity.
Qed.

(** A short timeout and a peer that sends one byte at a time, never the
    whole reply. *)
Lemma receive_failure_closes_witness :
  let s := sample_state (Some 3) false
             [Recv_bytes [x0a]; Recv_bytes [x00]; Recv_bytes [x00];
              Recv_bytes [x00]; Recv_bytes [x00]] in
  snd (_receive 1 s) = Raise RCONTimeoutError /\
  _closed (self (fst (_receive 1 s))) = true /\
  status (env (fst (_receive 1 s))) = Sock_closed.
Proof.
  intros s. split; [reflexivity|].
  apply (proj1 (receive_failure_closes 1 s (fst (_receive 1 s))
                  (snd (_receive 1 s)) eq_refl)).
  right. reflexivity.
Defined.




End Receive.

(** * Further properties of the module *)

(** ** Text of a message *)

Section Text.

Import RCONMessage.

Lemma ascii_decode_encode (s : string) :
  forall bs, ascii_encode s = Ok bs -> ascii_decode bs = Decoded s.
Proof.
  induction s as [|c s IH]; intros bs; cbn [ascii_encode].
  - intros H. injection H as <-. reflexivity.
  - destruct (N_of_ascii c <? 128)%N eqn:E; [|discriminate].
    destruct (ascii_encode s) as [bs'|] eqn:Es; cbn [rbind]; [|discriminate].
    intros H. injection H as <-. cbn [ascii_decode].
    apply N.ltb_lt in E.
    assert (Hb : Byte.to_N (byte_of_Z (Z.of_N (N_of_ascii c))) = N_of_ascii c).
    { pose proof (Z_of_byte_of_Z (Z.of_N (N_of_ascii c))) as Hz.
      unfold Z_of_byte in Hz. rewrite Z.mod_small in Hz by lia. lia. }
    rewrite Hb. apply N.ltb_lt in E. rewrite E, (IH bs' eq_refl).
    rewrite ascii_N_embedding. reflexivity.
Qed.

Lemma ascii_encode_decode (bs : bytes) :
  forall s, ascii_decode bs = Decoded s -> ascii_encode s = Ok bs.
Proof.
  induction bs as [|x bs IH]; intros s; cbn [ascii_decode].
  - intros H. injection H as <-. reflexivity.
  - destruct (Byte.to_N x <? 128)%N eqn:E; [|discriminate].
    destruct (ascii_decode bs) as [s'|] eqn:Es; [|discriminate].
    intros H. injection H as <-. cbn [ascii_encode].
    apply N.ltb_lt in E.
    rewrite N_ascii_embedding by lia.
    apply N.ltb_lt in E. rewrite E, (IH s' eq_refl). cbn [rbind].
    do 2 f_equal. unfold byte_of_Z.
    rewrite Z.mod_small by (apply N.ltb_lt in E; lia).
    rewrite N2Z.id, Byte.of_to_N. reflexivity.
Qed.

(** X1: a message built from a text, or whose text was set, gives that
    text back when its text is read; the id and the type are those given;
    and the text read from any message encodes to its body. *)
Theorem text_round_trip (id_ type_ : Z) (s : string) (m m0 m1 : RCONMessage.t) :
  __init__ id_ type_ (Text s) = Ok m ->
  set_text s m0 = Ok m1 ->
  text m = Decoded s /\ id m = id_ /\ Type_value (type m) = type_ /\
  text m1 = Decoded s /\ id m1 = id m0 /\ type m1 = type m0 /\
  (forall m2 s2, text m2 = Decoded s2 -> ascii_encode s2 = Ok (body m2)).
Proof.
  unfold __init__, set_text, text, Type_of_value.
  destruct (ascii_encode s) as [bs|] eqn:Es.
  - pose proof (ascii_decode_encode s bs Es) as Hd. intros H1 H2.
    cbn [rbind] in H2. injection H2 as <-.
    assert (Hm : exists ty, m = Message id_ ty bs /\ Type_value ty = type_).
    { destruct (type_ =? 0) eqn:E0; [apply Z.eqb_eq in E0|
      destruct (type_ =? 2) eqn:E2; [apply Z.eqb_eq in E2|
      destruct (type_ =? 3) eqn:E3; [apply Z.eqb_eq in E3|discriminate]]];
      cbn [rbind] in H1; injection H1 as <-; eexists; split;
        try reflexivity; subst; reflexivity. }
    destruct Hm as (ty & -> & Hty). cbn [body id type].
    repeat split; try assumption. intros m2 s2. apply ascii_encode_decode.
  - intros _ H2. discriminate H2.
Qed.

Lemma text_round_trip_witness :
  let m := Message 0 EXECCOMMAND [x73; x74; x61; x74; x75; x73] in
  __init__ 0 2 (Text "status") = Ok m /\ text m = Decoded "status".
Proof.
  intros m. split; [reflexivity|].
  apply (text_round_trip 0 2 "status" m m m); reflexivity.
Defined.

(** X2: the text setter fails, with [UnicodeEncodeError], exactly when a
    character of the text is not below 128; reading the text fails
    exactly when a byte of the body is not below 128. *)
Theorem text_fails_outside_ascii (s : string) (m : RCONMessage.t) :
  (set_text s m = Err UnicodeEncodeError <->
   exists c, In c (list_ascii_of_string s) /\ (128 <= N_of_ascii c)%N) /\
  ((exists m', set_text s m = Ok m') \/ set_text s m = Err UnicodeEncodeError) /\
  (text m = UnicodeDecodeError <->
   exists x, In x (body m) /\ (128 <= Byte.to_N x)%N).
Proof.
  unfold set_text, text. split; [|split].
  - induction s as [|c s IH]; cbn [ascii_encode list_ascii_of_string].
    + split; [discriminate|]. intros (c & [] & _).
    + destruct (N_of_ascii c <? 128)%N eqn:E.
      * apply N.ltb_lt in E.
        destruct (ascii_encode s) as [bs|e] eqn:Es; cbn [rbind] in *.
        -- split; [discriminate|]. intros (c' & [<-|Hin] & Hc); [lia|].
           destruct IH as [_ IH]. discriminate IH. eauto.
        -- destruct IH as [IH1 IH2]. split.
           ++ intros H. injection H as ->.
              destruct (IH1 eq_refl) as (c' & Hin & Hc).
              exists c'. split; [right; exact Hin|exact Hc].
           ++ intros _. rewrite (ascii_encode_errors _ _ Es). reflexivity.
      * apply N.ltb_ge in E. split; [|reflexivity].
        intros _. exists c. split; [left; reflexivity|exact E].
  - destruct (ascii_encode s) as [bs|e] eqn:Es; cbn [rbind].
    + left. eauto.
    + right. rewrite (ascii_encode_errors _ _ Es). reflexivity.
  - induction (body m) as [|x bs IH]; cbn [ascii_decode].
    + split; [discriminate|]. intros (x & [] & _).
    + destruct (Byte.to_N x <? 128)%N eqn:E.
      * apply N.ltb_lt in E. destruct (ascii_decode bs) as [s'|].
        -- split; [discriminate|]. intros (x' & [<-|Hin] & Hx); [lia|].
           destruct IH as [_ IH]. discriminate IH. eauto.
        -- split; [|reflexivity]. intros _.
           destruct IH as [IH _]. destruct (IH eq_refl) as (x' & Hin & Hx).
           exists x'. split; [right; exact Hin|exact Hx].
      * apply N.ltb_ge in E. split; [|reflexivity].
        intros _. exists x. split; [left; reflexivity|exact E].
Qed.

End Text.

(** ** More of the codec *)

Section CodecEdges.

Import RCONMessage.

Lemma slice_to_neg_app {A : Type} (k : nat) (a b : list A) :
  (0 < k)%nat -> length b = k -> slice_to (- Z.of_nat k) (a ++ b) = a.
Proof.
  intros Hk Hb. unfold slice_to, slice_bound.
  destruct (- Z.of_nat k <? 0) eqn:E; [|apply Z.ltb_ge in E; lia].
  rewrite length_app.
  replace (Z.to_nat (Z.max 0 (Z.of_nat (length a + length b) + - Z.of_nat k)))
    with (length a + 0)%nat by lia.
  rewrite firstn_app_2. simpl. apply app_nil_r.
Qed.

Lemma slice_from_neg_app {A : Type} (k : nat) (a b : list A) :
  (0 < k)%nat -> length b = k -> slice_from (- Z.of_nat k) (a ++ b) = b.
Proof.
  intros Hk Hb. unfold slice_from, slice_bound.
  destruct (- Z.of_nat k <? 0) eqn:E; [|apply Z.ltb_ge in E; lia].
  rewrite length_app.
  replace (Z.to_nat (Z.max 0 (Z.of_nat (length a + length b) + - Z.of_nat k)))
    with (length a) by lia.
  rewrite skipn_app, skipn_all, Nat.sub_diag. reflexivity.
Qed.

Lemma slice_to_from {A : Type} (n : Z) (b : list A) :
  slice_to n b ++ slice_from n b = b.
Proof. apply firstn_skipn. Qed.

Lemma slice_to_drop_two (bt : bytes) :
  slice_to (-2) bt = firstn (length bt - 2) bt.
Proof.
  unfold slice_to, slice_bound. cbn [Z.ltb Z.compare]. f_equal. lia.
Qed.

Lemma unpack_ii_length (buf : bytes) (v : Z * Z) :
  struct.unpack_ii buf = Ok v -> length buf = 8%nat.
Proof.
  unfold struct.unpack_ii.
  do 8 (destruct buf as [|? buf]; [discriminate|]).
  destruct buf; [reflexivity|discriminate].
Qed.

Lemma unpack_ii_short (buf : bytes) :
  (length buf < 8)%nat -> struct.unpack_ii buf = Err struct_error.
Proof.
  unfold struct.unpack_ii. intros H.
  do 8 (destruct buf as [|? buf]; [reflexivity|]). simpl in H. lia.
Qed.

(** X3: [encode] raises nothing but [struct.error], and raises it exactly
    when the id or the size [10 + len(body)] does not fit a C int. *)
Theorem encode_fails_out_of_range (m : RCONMessage.t) :
  (encode m = Err struct_error <->
   struct.in_int (id m) = false \/ struct.in_int (frame_size m) = false) /\
  (forall e, encode m = Err e -> e = struct_error).
Proof.
  unfold encode, struct.pack_iii, struct.calcsize_ii.
  rewrite length_app. simpl length.
  replace (8 + Z.of_nat (length (body m) + 2)) with (frame_size m)
    by (unfold frame_size; lia).
  rewrite in_int_Type_value, andb_true_r.
  destruct (struct.in_int (frame_size m)), (struct.in_int (id m));
    cbn [andb rbind]; split; try split; intros; try discriminate; auto;
    try (destruct H; discriminate); congruence.
Qed.

(** X4: the layout of a frame: 14 bytes more than the body; a size field
    that counts every byte after itself; then the id and the type code
    as they decode; then the body; then two zero bytes. *)
Theorem encode_layout (m : RCONMessage.t) (frame : bytes) :
  encode m = Ok frame ->
  length frame = (14 + length (body m))%nat /\
  struct.unpack_i (firstn 4 frame) = Ok (Z.of_nat (length frame) - 4) /\
  struct.unpack_ii (firstn 8 (skipn 4 frame)) = Ok (id m, Type_value (type m)) /\
  firstn (length (body m)) (skipn 12 frame) = body m /\
  skipn (12 + length (body m)) frame = [x00; x00].
Proof.
  intros H. pose proof (encode_length _ _ H) as Hl.
  apply encode_Ok in H. destruct H as (Hsz & Hid & ->).
  unfold frame_size in *. split; [lia|]. split; [|split; [|split]].
  - rewrite Hl.
    replace (4 + (10 + Z.of_nat (length (body m))) - 4)
      with (10 + Z.of_nat (length (body m))) by lia.
    rewrite <- (unpack_i_le_bytes _ Hsz). reflexivity.
  - cbn [struct.le_bytes app skipn firstn struct.unpack_ii].
    rewrite !le_signed_le_bytes by (assumption || apply in_int_Type_value).
    reflexivity.
  - cbn [struct.le_bytes app skipn].
    replace (length (body m)) with (length (body m) + 0)%nat at 1 by lia.
    rewrite firstn_app_2. simpl. apply app_nil_r.
  - cbn [struct.le_bytes app skipn Nat.add].
    rewrite skipn_app, skipn_all, Nat.sub_diag. reflexivity.
Qed.

Lemma encode_layout_witness :
  let m := Message 5 EXECCOMMAND [x73; x74; x61; x74; x75; x73] in
  exists frame, encode m = Ok frame /\ length frame = 20%nat /\
                struct.unpack_i (firstn 4 frame) = Ok 16.
Proof.
  intros m. eexists. split; [reflexivity|].
  match goal with
  | |- length ?f = _ /\ _ =>
      destruct (encode_layout m f eq_refl) as (H1 & H2 & _)
  end.
  split; [exact H1|exact H2].
Defined.

(** X5: a decoded message was cut from the front of the buffer: the
    buffer is at least 12 consumed bytes followed by the remainder,
    untouched. *)
Theorem decode_consumes_front (b rest : bytes) (m : RCONMessage.t) :
  decode b = Ok (m, rest) ->
  exists consumed, b = consumed ++ rest /\ (12 <= length consumed)%nat.
Proof.
  unfold decode, struct.calcsize_i, struct.calcsize_ii.
  destruct (Z.of_nat (length b) <? 4) eqn:E; [discriminate|].
  apply Z.ltb_ge in E.
  destruct (struct.unpack_i (slice_to 4 b)) as [size|]; [|discriminate].
  cbn [rbind].
  destruct (Z.of_nat (length (slice_from 4 b)) <? size); [discriminate|].
  destruct (struct.unpack_ii _) as [[i ty]|] eqn:Eu; [|discriminate].
  cbn [rbind]. destruct (__init__ _ _ _); [|discriminate].
  cbn [rbind]. intros H. injection H as _ <-.
  exists (slice_to 4 b ++ slice_to size (slice_from 4 b)). split.
  - rewrite <- app_assoc, !slice_to_from. reflexivity.
  - apply unpack_ii_length in Eu. rewrite length_app.
    assert (H4 : length (slice_to 4 b) = 4%nat).
    { unfold slice_to, slice_bound. cbn [Z.ltb Z.compare].
      rewrite length_firstn. lia. }
    assert (H8 : (length (slice_to 8 (slice_to size (slice_from 4 b)))
                  <= length (slice_to size (slice_from 4 b)))%nat).
    { unfold slice_to at 1. rewrite length_firstn. lia. }
    lia.
Qed.

Lemma decode_consumes_front_witness :
  exists consumed,
    [x0a; x00; x00; x00; x07; x00; x00; x00; x00; x00; x00; x00; x00; x00; xff]
    = consumed ++ [xff] /\ (12 <= length consumed)%nat.
Proof.
  apply (decode_consumes_front _ [xff] (Message 7 RESPONSE_VALUE [])).
  reflexivity.
Defined.

(** The payload [fixed fields ++ bt] behind any size field that selects
    it: the last two bytes of [bt], whatever they are, are dropped, and
    with fewer than two bytes the body is empty. *)
Lemma decode_payload (size id_ : Z) (ty : Type_) (bt tail : bytes) :
  struct.in_int size = true -> struct.in_int id_ = true ->
  slice_to size ((struct.le_bytes id_ ++ struct.le_bytes (Type_value ty))
                 ++ bt ++ tail)
  = (struct.le_bytes id_ ++ struct.le_bytes (Type_value ty)) ++ bt ->
  slice_from size ((struct.le_bytes id_ ++ struct.le_bytes (Type_value ty))
                   ++ bt ++ tail) = tail ->
  size <= 8 + Z.of_nat (length bt) + Z.of_nat (length tail) ->
  decode (struct.le_bytes size
          ++ (struct.le_bytes id_ ++ struct.le_bytes (Type_value ty))
          ++ bt ++ tail)
  = Ok (Message id_ ty (firstn (length bt - 2) bt), tail).
Proof.
  intros Hsz Hid Hto Hfrom Hle.
  set (fixed := struct.le_bytes id_ ++ struct.le_bytes (Type_value ty)) in *.
  assert (Hfix : Z.of_nat (length fixed) = 8) by reflexivity.
  unfold decode, struct.calcsize_i, struct.calcsize_ii.
  destruct (Z.of_nat (length (struct.le_bytes size ++ fixed ++ bt ++ tail)) <? 4)
    eqn:E.
  { apply Z.ltb_lt in E. rewrite length_app, le_bytes_length in E. lia. }
  rewrite slice_to_app, slice_from_app by reflexivity.
  rewrite unpack_i_le_bytes by assumption. cbn [rbind].
  destruct (Z.of_nat (length (fixed ++ bt ++ tail)) <? size) eqn:E2.
  { apply Z.ltb_lt in E2. rewrite !length_app in E2. lia. }
  rewrite Hto, Hfrom.
  rewrite slice_to_app, slice_from_app by assumption.
  unfold fixed.
  rewrite unpack_ii_le_bytes by (assumption || apply in_int_Type_value).
  cbn [rbind]. rewrite slice_to_drop_two.
  unfold __init__. rewrite Type_of_value_Type_value. reflexivity.
Qed.

(** X6: [decode] does not look at the terminator: behind a size field
    that covers the fixed fields and [bt], the message decoded has [bt]
    less its last two bytes as its body, whatever those bytes are; and when
    [bt] has fewer than two bytes the body is empty. *)
Theorem decode_ignores_terminator (id_ : Z) (ty : Type_) (bt tail : bytes) :
  struct.in_int id_ = true ->
  struct.in_int (8 + Z.of_nat (length bt)) = true ->
  decode (struct.le_bytes (8 + Z.of_nat (length bt))
          ++ (struct.le_bytes id_ ++ struct.le_bytes (Type_value ty))
          ++ bt ++ tail)
  = Ok (Message id_ ty (firstn (length bt - 2) bt), tail).
Proof.
  intros Hid Hsz. apply decode_payload; try assumption; try lia.
  - rewrite app_assoc. apply slice_to_app. rewrite length_app. simpl length. lia.
  - rewrite app_assoc. apply slice_from_app. rewrite length_app. simpl length.
    lia.
Qed.

Lemma decode_ignores_terminator_witness :
  decode [x0b; x00; x00; x00; x01; x00; x00; x00; x00; x00; x00; x00;
          x6f; xff; x2a]
  = Ok (Message 1 RESPONSE_VALUE [x6f], []) /\
  decode [x09; x00; x00; x00; x01; x00; x00; x00; x00; x00; x00; x00;
          x6f; x6b]
  = Ok (Message 1 RESPONSE_VALUE [], [x6b]).
Proof.
  split.
  - apply (decode_ignores_terminator 1 RESPONSE_VALUE [x6f; xff; x2a] []);
      reflexivity.
  - apply (decode_ignores_terminator 1 RESPONSE_VALUE [x6f] [x6b]);
      reflexivity.
Defined.

(** X7: a size field that is negative is not refused: [-k] makes the
    last [k] bytes of the buffer the remainder and everything before them
    the message. *)
Theorem decode_negative_size (k : nat) (id_ : Z) (ty : Type_)
  (bt tail : bytes) :
  (0 < k)%nat -> length tail = k ->
  struct.in_int (- Z.of_nat k) = true -> struct.in_int id_ = true ->
  decode (struct.le_bytes (- Z.of_nat k)
          ++ (struct.le_bytes id_ ++ struct.le_bytes (Type_value ty))
          ++ bt ++ tail)
  = Ok (Message id_ ty (firstn (length bt - 2) bt), tail).
Proof.
  intros Hk Hl Hsz Hid. apply decode_payload; try assumption; try lia.
  - rewrite app_assoc. apply slice_to_neg_app; assumption.
  - rewrite app_assoc. apply slice_from_neg_app; assumption.
Qed.

Lemma decode_negative_size_witness :
  decode [xff; xff; xff; xff; x01; x00; x00; x00; x02; x00; x00; x00;
          x41; x42; x00; x00]
  = Ok (Message 1 AUTH_RESPONSE [x41], [x00]).
Proof.
  apply (decode_negative_size 1 1 AUTH_RESPONSE [x41; x42; x00] [x00]);
    reflexivity || lia.
Defined.

(** X8: a size field from 0 to 7, with that many bytes behind it, is not
    an incomplete message: the fixed fields cannot be unpacked and
    [decode] raises [struct.error]. *)
Theorem decode_short_size (size : Z) (raw : bytes) :
  0 <= size < 8 -> size <= Z.of_nat (length raw) ->
  decode (struct.le_bytes size ++ raw) = Err struct_error.
Proof.
  intros Hs Hl. unfold decode, struct.calcsize_i, struct.calcsize_ii.
  destruct (Z.of_nat (length (struct.le_bytes size ++ raw)) <? 4) eqn:E.
  { apply Z.ltb_lt in E. rewrite length_app, le_bytes_length in E. lia. }
  rewrite slice_to_app, slice_from_app by reflexivity.
  rewrite unpack_i_le_bytes
    by (unfold struct.in_int, struct.int_min, struct.int_max;
        apply andb_true_intro; split; apply Z.leb_le; lia).
  cbn [rbind].
  destruct (Z.of_nat (length raw) <? size) eqn:E2;
    [apply Z.ltb_lt in E2; lia|].
  rewrite unpack_ii_short; [reflexivity|].
  unfold slice_to at 1. rewrite length_firstn.
  unfold slice_to, slice_bound.
  destruct (size <? 0) eqn:E3; [apply Z.ltb_lt in E3; lia|].
  rewrite length_firstn. lia.
Qed.

Lemma decode_short_size_witness :
  decode [x04; x00; x00; x00; x01; x00; x00; x00] = Err struct_error.
Proof.
  apply (decode_short_size 4 [x01; x00; x00; x00]); simpl; lia.
Defined.

End CodecEdges.

(** ** More of the response buffer *)

Section BufferMore.

Import _ResponseBuffer.

Lemma pop_times_queue (ms : list RCONMessage.t) :
  forall b q d,
  pop_times (length ms) (Buffer b (ms ++ q) d) = (Buffer b q d, Ok ms).
Proof.
  induction ms as [|m ms IH]; intros b q d; [reflexivity|].
  cbn [length pop_times app]. unfold pop at 1.
  cbn [_responses _buffer _discard_next]. rewrite IH. reflexivity.
Qed.

(** X9: the queue is first in, first out: the messages of the frames fed
    to a new buffer are popped in the order of the frames, and the pop
    after the last one raises [RCONError] and changes nothing. *)
Theorem feed_then_pop_in_order (ms : list RCONMessage.t)
  (frames : list bytes) :
  Forall2 (fun m f => RCONMessage.encode m = Ok f) ms frames ->
  pop_times (length ms) (fst (feed (concat frames) __init__)) =
    (__init__, Ok ms) /\
  pop_times (S (length ms)) (fst (feed (concat frames) __init__)) =
    (__init__, Err (RCONError Response_buffer_is_empty)).
Proof.
  intros H. unfold feed, __init__.
  cbn [_buffer _responses _discard_next app].
  rewrite (consume_frames ms frames H). cbn [fst app skipn Nat.sub].
  split.
  - rewrite <- (app_nil_r ms) at 2. apply pop_times_queue.
  - assert (Hmore : forall (l : list RCONMessage.t) b d,
      pop_times (S (length l)) (Buffer b l d) =
      (Buffer b [] d, Err (RCONError Response_buffer_is_empty))).
    { induction l as [|x l IH]; intros b d; [reflexivity|].
      cbn [length]. cbn [pop_times]. unfold pop at 1.
      cbn [_responses _buffer _discard_next].
      change (match l with
              | [] => (Buffer b l d, Err (RCONError Response_buffer_is_empty))
              | _ => _ end) with (pop (Buffer b l d)) in *.
      pose proof (IH b d) as IH'. cbn [pop_times] in IH'.
      destruct (pop (Buffer b l d)) as [rb' [m'|e']].
      - destruct (pop_times (length l) rb') as [rb'' [ms'|e'']];
          [discriminate IH'|exact IH'].
      - exact IH'. }
    apply Hmore.
Qed.

Lemma feed_then_pop_in_order_witness :
  let m1 := RCONMessage.Message 1 RCONMessage.RESPONSE_VALUE [x61] in
  let m2 := RCONMessage.Message 2 RCONMessage.RESPONSE_VALUE [x62] in
  let frames :=
    [ [x0b; x00; x00; x00; x01; x00; x00; x00; x00; x00; x00; x00; x61; x00; x00];
      [x0b; x00; x00; x00; x02; x00; x00; x00; x00; x00; x00; x00; x62; x00; x00] ] in
  pop_times 2 (fst (feed (concat frames) __init__)) = (__init__, Ok [m1; m2]).
Proof.
  intros m1 m2 frames.
  apply (proj1 (feed_then_pop_in_order [m1; m2] frames
                  ltac:(repeat constructor))).
Defined.

(** X10: frames followed by the beginning of another frame, fed in one
    call: the whole frames are decoded, and the beginning stays in the
    buffer until a later call brings the end of its frame. *)
Theorem feed_frames_and_partial (ms : list RCONMessage.t)
  (frames : list bytes) (m : RCONMessage.t) (frame p q : bytes)
  (rs : list RCONMessage.t) :
  Forall2 (fun m f => RCONMessage.encode m = Ok f) ms frames ->
  RCONMessage.encode m = Ok frame -> p ++ q = frame -> q <> [] ->
  feed (concat frames ++ p) (Buffer [] rs 0) = (Buffer p (rs ++ ms) 0, Ok tt) /\
  feed q (Buffer p (rs ++ ms) 0) = (Buffer [] (rs ++ ms ++ [m]) 0, Ok tt).
Proof.
  intros Hf Hm Hpq Hq. split.
  - unfold feed. cbn [_buffer _responses _discard_next app].
    revert rs. induction Hf as [|m0 f0 ms0 fs0 Hm0 _ IH]; intros rs.
    + cbn [concat app]. rewrite app_nil_r. unfold _consume.
      apply consume_loop_incomplete. right. cbn [_buffer].
      exact (decode_prefix _ _ _ _ Hm Hpq Hq).
    + cbn [concat]. rewrite <- app_assoc, (consume_frame _ _ _ _ _ Hm0).
      cbn [pred]. rewrite IH, <- app_assoc. reflexivity.
  - unfold feed. cbn [_buffer _responses _discard_next]. rewrite Hpq.
    rewrite <- (app_nil_r frame), (consume_frame _ _ _ _ _ Hm).
    rewrite _consume_unfold, <- app_assoc. reflexivity.
Qed.

Lemma feed_frames_and_partial_witness :
  let m1 := RCONMessage.Message 1 RCONMessage.RESPONSE_VALUE [x61] in
  let f1 := [x0b; x00; x00; x00; x01; x00; x00; x00; x00; x00; x00; x00;
             x61; x00; x00] in
  feed (concat [f1] ++ [x0a; x00; x00; x00; x00]) (Buffer [] [] 0) =
  (Buffer [x0a; x00; x00; x00; x00] [m1] 0, Ok tt).
Proof.
  intros m1 f1.
  apply (proj1 (feed_frames_and_partial [m1] [f1] empty_reply
                  empty_reply_frame [x0a; x00; x00; x00; x00]
                  [x00; x00; x00; x00; x00; x00; x00; x00; x00] []
                  ltac:(repeat constructor) eq_refl eq_refl
                  ltac:(discriminate))).
Defined.

(** X11: only [RCONMessageError] is taken for an incomplete message: bytes
    on which [decode] raises another exception make [feed] raise it; the
    messages decoded before them are kept and the bytes stay at the front
    of the buffer. *)
Theorem feed_raises_on_bad_frame (ms : list RCONMessage.t)
  (frames : list bytes) (bad : bytes) (e : exn) (rs : list RCONMessage.t) :
  Forall2 (fun m f => RCONMessage.encode m = Ok f) ms frames ->
  RCONMessage.decode bad = Err e -> e <> RCONMessageError ->
  feed (concat frames ++ bad) (Buffer [] rs 0) = (Buffer bad (rs ++ ms) 0, Err e).
Proof.
  intros Hf Hbad He. unfold feed. cbn [_buffer _responses _discard_next app].
  revert rs. induction Hf as [|m0 f0 ms0 fs0 Hm0 _ IH]; intros rs.
  - cbn [concat app]. rewrite app_nil_r, _consume_unfold. cbn [_buffer].
    destruct bad as [|b0 bad'];
      [cbn in Hbad; injection Hbad as <-; congruence|].
    unfold _consume_step. cbn [_buffer]. rewrite Hbad.
    destruct e; try reflexivity. congruence.
  - cbn [concat]. rewrite <- app_assoc, (consume_frame _ _ _ _ _ Hm0).
    cbn [pred]. rewrite IH, <- app_assoc. reflexivity.
Qed.

Lemma feed_raises_on_bad_frame_witness :
  feed (concat [empty_reply_frame]
        ++ [x0a; x00; x00; x00; x00; x00; x00; x00; x01; x00; x00; x00;
            x00; x00])
    (Buffer [] [] 0) =
  (Buffer [x0a; x00; x00; x00; x00; x00; x00; x00; x01; x00; x00; x00;
           x00; x00] [empty_reply] 0, Err ValueError).
Proof.
  apply (feed_raises_on_bad_frame [empty_reply] [empty_reply_frame] _
           ValueError []); [repeat constructor|reflexivity|discriminate].
Defined.

Lemma consume_loop_keeps (fuel : nat) :
  forall rb, no_queue_while_discarding rb ->
  no_queue_while_discarding (fst (_consume_loop fuel rb)).
Proof.
  induction fuel as [|fuel IH]; intros rb H; cbn [_consume_loop];
    destruct (_buffer rb); try exact H.
  unfold _consume_step.
  destruct (RCONMessage.decode _) as [[m rest]|e].
  - destruct (_discard_next rb) eqn:Ed; apply IH.
    + left. reflexivity.
    + destruct H as [H|H]; [congruence|]. right. exact H.
  - destruct e; exact H.
Qed.

Lemma run_op_keeps (o : op) (rb : _ResponseBuffer.t) :
  no_queue_while_discarding rb -> no_queue_while_discarding (run_op o rb).
Proof.
  intros H. destruct o as [bs| |]; cbn [run_op].
  - unfold feed, _consume. apply consume_loop_keeps. exact H.
  - unfold pop. destruct (_responses rb) as [|m q] eqn:E; [exact H|].
    destruct H as [H|H]; [left; exact H|congruence].
  - unfold discard. destruct (_responses rb) as [|m q] eqn:E.
    + right. reflexivity.
    + destruct H as [H|H]; [left; exact H|congruence].
Qed.

(** X12: whatever is fed, popped and discarded, in any order, on a new
    buffer, a message is never queued while a discard is pending: the
    discard counter is 0 or the queue is empty. *)
Theorem discard_counter_invariant (os : list op) :
  no_queue_while_discarding (run_ops os __init__).
Proof.
  unfold run_ops.
  assert (H : forall rb, no_queue_while_discarding rb ->
            no_queue_while_discarding (fold_left (fun rb o => run_op o rb) os rb)).
  { induction os as [|o os IH]; intros rb Hrb; [exact Hrb|].
    cbn [fold_left]. apply IH, run_op_keeps, Hrb. }
  apply H. left. reflexivity.
Qed.

Lemma consume_loop_leaves (fuel : nat) :
  forall rb rb' r, (length (_buffer rb) <= fuel)%nat ->
  _consume_loop fuel rb = (rb', r) ->
  match r with
  | Ok _ => _buffer rb' = [] \/
            RCONMessage.decode (_buffer rb') = Err RCONMessageError
  | Err e => RCONMessage.decode (_buffer rb') = Err e /\ e <> RCONMessageError
  end.
Proof.
  induction fuel as [|fuel IH]; intros rb rb' r Hl; cbn [_consume_loop];
    destruct (_buffer rb) as [|b0 bs] eqn:Eb.
  - intros H. injection H as <- <-. left. exact Eb.
  - simpl in Hl. lia.
  - intros H. injection H as <- <-. left. exact Eb.
  - destruct (_consume_step rb) as [rb1|r1] eqn:Es.
    + apply IH. pose proof (consume_step_shortens _ _ Es) as Hs.
      rewrite Eb in Hs. simpl in Hs, Hl. lia.
    + unfold _consume_step in Es.
      destruct (RCONMessage.decode (_buffer rb)) as [[m rest]|e] eqn:Ed.
      * destruct (_discard_next rb); discriminate Es.
      * intros H. subst r1.
        destruct e; injection Es as <- <-;
          try (split; [exact Ed|discriminate]).
        right. exact Ed.
Qed.

(** X13: [feed] decodes all it can: when it returns, the bytes left in
    the buffer are none or an incomplete message; when it raises, they
    are bytes on which [decode] raises that exception. *)
Theorem feed_leaves_no_frame (bytes_ : bytes) (rb rb' : _ResponseBuffer.t)
  (r : result unit) :
  feed bytes_ rb = (rb', r) ->
  match r with
  | Ok _ => _buffer rb' = [] \/
            RCONMessage.decode (_buffer rb') = Err RCONMessageError
  | Err e => RCONMessage.decode (_buffer rb') = Err e /\ e <> RCONMessageError
  end.
Proof.
  unfold feed, _consume. apply consume_loop_leaves. reflexivity.
Qed.

Lemma feed_leaves_no_frame_witness :
  RCONMessage.decode
    (_buffer (fst (feed (empty_reply_frame ++ [x0a; x00; x00; x00; x00])
                     __init__)))
  = Err RCONMessageError.
Proof.
  destruct (feed_leaves_no_frame
              (empty_reply_frame ++ [x0a; x00; x00; x00; x00]) __init__
              (Buffer [x0a; x00; x00; x00; x00] [empty_reply] 0) (Ok tt)
              eq_refl) as [H|H]; [discriminate H|exact H].
Defined.

End BufferMore.

(** ** Invariants of the connection *)

Section Invariants.

Import RCON.

Lemma step_ok_refl (s : State) : step_ok s s.
Proof. split; [auto|]. repeat split; auto. Qed.

Lemma step_ok_trans (s1 s2 s3 : State) :
  step_ok s1 s2 -> step_ok s2 s3 -> step_ok s1 s3.
Proof.
  intros [W1 (A1 & A2 & A3 & A4 & A5 & A6)] [W2 (B1 & B2 & B3 & B4 & B5 & B6)].
  split; [auto|]. repeat split; try congruence; auto.
Qed.

(** A change that keeps the attributes but [_responses], keeps the state
    of the socket and keeps the buffer in order. *)
Lemma step_ok_buffer (s s' : State) :
  same_settings (self s) (self s') ->
  _closed (self s') = _closed (self s) ->
  status (env s') = status (env s) ->
  (no_queue_while_discarding (_responses (self s)) ->
   no_queue_while_discarding (_responses (self s'))) ->
  step_ok s s'.
Proof.
  intros (A1 & A2 & A3 & A4 & A5) Hc Hst Hb. split.
  - intros (W1 & W2 & W3 & W4). unfold well_formed.
    rewrite A4, A5, Hc, Hst. auto.
  - repeat split; try congruence.
Qed.

Lemma step_ok_after_tick (s : State) : step_ok s (after_tick s).
Proof. apply step_ok_buffer; try reflexivity; [repeat split|auto]. Qed.

Lemma step_ok_after_recv (s : State) : step_ok s (after_recv s).
Proof. apply step_ok_buffer; try reflexivity; [repeat split|auto]. Qed.

Lemma step_ok_after_pop (s : State) : step_ok s (after_pop s).
Proof.
  apply step_ok_buffer; try reflexivity; [repeat split|].
  unfold after_pop, no_queue_while_discarding.
  cbn [self set_responses _responses _ResponseBuffer._responses
       _ResponseBuffer._discard_next].
  intros [H|H]; [left; exact H|right; rewrite H; reflexivity].
Qed.

Lemma step_ok_after_discard (s : State) : step_ok s (after_discard s).
Proof.
  apply step_ok_buffer; try reflexivity; [repeat split|].
  apply (run_op_keeps _ResponseBuffer.Op_discard).
Qed.

Lemma step_ok_after_close (s : State) :
  truthy (_socket (self s)) = true -> step_ok s (after_close s).
Proof.
  intros Hs. split.
  - intros (W1 & W2 & W3 & W4). unfold well_formed, after_close.
    cbn [self env set_closed set_status _closed _socket _authenticated
         _responses status].
    repeat split; auto.
  - repeat split; auto.
Qed.

Lemma step_ok_feed (bs : bytes) (s : State) (e : Env) :
  status e = status (env s) ->
  step_ok s
    (mkState
       (set_responses (fst (_ResponseBuffer.feed bs (_responses (self s))))
          (self s)) e).
Proof.
  intros He. apply step_ok_buffer; try assumption; try reflexivity;
    [repeat split|].
  apply (run_op_keeps (_ResponseBuffer.Op_feed bs)).
Qed.

Lemma step_ok_read (s : State) : step_ok s (fst (_read s)).
Proof.
  rewrite _read_eq. destruct (_socket (self s)) as [sock|] eqn:Es;
    [|apply step_ok_refl].
  assert (Hs : truthy (_socket (self s)) = true) by (rewrite Es; reflexivity).
  assert (Hcr : step_ok s (after_close (after_recv s))).
  { apply (step_ok_trans _ (after_recv s)); [apply step_ok_after_recv|].
    apply step_ok_after_close. exact Hs. }
  destruct (status (env s)); try (apply step_ok_after_close; exact Hs).
  destruct (recvs (env s)) as [|[[|b bs]|] rest];
    [apply step_ok_refl|exact Hcr| |exact Hcr].
  pose proof (step_ok_feed (b :: bs) s (env (after_recv s)) eq_refl) as Hf.
  destruct (_ResponseBuffer.feed (b :: bs) (_responses (self s))) as [rb' [[]|e]];
    exact Hf.
Qed.

Lemma step_ok_time_is_up (s : State) : step_ok s (fst (time_is_up s)).
Proof.
  rewrite time_is_up_eq. destruct (truthy (_socket (self s))) eqn:Es.
  - apply step_ok_after_close. exact Es.
  - apply step_ok_refl.
Qed.

Lemma step_ok_receive_loop (fuel : nat) :
  forall count ts rs s, step_ok s (fst (_receive_loop fuel count ts rs s)).
Proof.
  induction fuel as [|fuel IH]; intros count ts rs s.
  - rewrite _receive_loop_O. destruct (_timeout (self s)); [|apply step_ok_refl].
    destruct (_ <? _); [apply step_ok_after_tick|].
    apply (step_ok_trans _ (after_tick s));
      [apply step_ok_after_tick|apply step_ok_time_is_up].
  - rewrite _receive_loop_S.
    assert (Hturn : forall s1, step_ok s1 (fst (turn fuel count ts rs s1))).
    { intros s1. unfold turn. pose proof (step_ok_read s1) as Hr.
      destruct (_read s1) as [s2 [[]|e|]]; try exact Hr. cbn [fst] in Hr.
      destruct (_ResponseBuffer._responses (_responses (self s2))) as [|m q].
      - exact (step_ok_trans _ _ _ Hr (IH _ _ _ _)).
      - pose proof (step_ok_trans _ _ _ Hr (step_ok_after_pop s2)) as Hp.
        destruct (_ =? _); [exact Hp|].
        exact (step_ok_trans _ _ _ Hp (IH _ _ _ _)). }
    destruct (_timeout (self s)); [|apply Hturn].
    destruct (_ <? _).
    + exact (step_ok_trans _ _ _ (step_ok_after_tick s) (Hturn _)).
    + exact (step_ok_trans _ _ _ (step_ok_after_tick s) (step_ok_time_is_up _)).
Qed.

Lemma step_ok_receive (count : Z) (s : State) :
  step_ok s (fst (_receive count s)).
Proof.
  rewrite _receive_eq.
  exact (step_ok_trans _ _ _ (step_ok_after_tick s) (step_ok_receive_loop _ _ _ _ _)).
Qed.

(** [_request] changes nothing but what was sent and the script of the
    [sendall] results, and it returns only on a connected socket. *)
Lemma _request_shape (ty : RCONMessage.Type_) (b : RCONMessage.body_or_text)
  (s s' : State) (o : outcome unit) :
  _request ty b s = (s', o) ->
  self s' = self s /\ status (env s') = status (env s) /\
  recvs (env s') = recvs (env s) /\ clock (env s') = clock (env s) /\
  ticks (env s') = ticks (env s) /\ o <> Hang /\
  (o = Return tt -> status (env s) = Sock_connected /\
                    truthy (_socket (self s)) = true) /\
  (status (env s) <> Sock_connected -> s' = s).
Proof.
  unfold _request, bind, of_result, the_socket, socket_sendall.
  destruct (RCONMessage.__init__ _ _ _) as [m|e];
    [|intros H; injection H as <- <-; repeat split; congruence].
  destruct (_socket (self s));
    [|intros H; injection H as <- <-; repeat split; congruence].
  destruct (RCONMessage.encode m) as [data|e];
    [|intros H; injection H as <- <-; repeat split; congruence].
  destruct (status (env s)) eqn:Est;
    try (intros H; injection H as <- <-; repeat split; congruence).
  destruct (sends (env s)) as [|[] rest]; intros H; injection H as <- <-;
    cbn [self env status recvs clock ticks]; repeat split; congruence.
Qed.

Lemma step_ok_request (ty : RCONMessage.Type_) (b : RCONMessage.body_or_text)
  (s : State) : step_ok s (fst (_request ty b s)).
Proof.
  destruct (_request ty b s) as [s' o] eqn:E.
  apply _request_shape in E. destruct E as (Hself & Hst & _). cbn [fst].
  apply step_ok_buffer; rewrite ?Hself; try reflexivity; try assumption;
    [repeat split|auto].
Qed.

(** [connect] in closed form. *)
Lemma connect_eq (s : State) :
  connect s =
  if _closed (self s) || truthy (_socket (self s))
  then (s, Raise (RCONError Cannot_connect))
  else if accepts (env s)
       then (after_connect true s, Return tt)
       else (after_connect false s, Raise socket_error).
Proof.
  unfold connect, bind, get_self, raise, socket_socket, set_self,
    socket_connect, after_connect.
  destruct (_closed (self s) || truthy (_socket (self s))); [reflexivity|].
  cbn [self env set_status accepts]. destruct (accepts (env s)); reflexivity.
Qed.

(** [execute] in closed form. *)
Lemma execute_eq (command : RCONMessage.body_or_text) (block : bool)
  (s : State) :
  execute command block s =
  match _request RCONMessage.EXECCOMMAND command s with
  | (s1, Return _) =>
      if block
      then match _receive 1 s1 with
           | (s2, Return (response :: _)) => (s2, Return (Some response))
           | (s2, Return []) => (s2, Raise ValueError)
           | (s2, Raise e) => (s2, Raise e)
           | (s2, Hang) => (s2, Hang)
           end
      else match _read (after_discard s1) with
           | (s2, Return _) => (s2, Return None)
           | (s2, Raise e) => (s2, Raise e)
           | (s2, Hang) => (s2, Hang)
           end
  | (s1, Raise e) => (s1, Raise e)
  | (s1, Hang) => (s1, Hang)
  end.
Proof.
  unfold execute. unfold bind at 1.
  destruct (_request RCONMessage.EXECCOMMAND command s) as [s1 [[]|e|]];
    try reflexivity.
  destruct block.
  - unfold bind. destruct (_receive 1 s1) as [s2 [[|r rs]|e|]]; reflexivity.
  - unfold bind at 1. unfold set_self. fold (after_discard s1).
    unfold bind. destruct (_read (after_discard s1)) as [s2 [[]|e|]];
      reflexivity.
Qed.

(** [__call__] in closed form. *)
Lemma __call___eq (command : RCONMessage.body_or_text) (s : State) :
  __call__ command s =
  match execute command true s with
  | (s1, Return (Some response)) =>
      match RCONMessage.text response with
      | RCONMessage.Decoded txt => (s1, Return txt)
      | RCONMessage.UnicodeDecodeError => (s1, Raise RCONMessageError)
      end
  | (s1, Return None) => (s1, Raise AttributeError)
  | (s1, Raise e) => (s1, Raise e)
  | (s1, Hang) => (s1, Hang)
  end.
Proof.
  unfold __call__, bind.
  destruct (execute command true s) as [s1 [[r|]|e|]]; try reflexivity.
  destruct (RCONMessage.text r); reflexivity.
Qed.

Lemma step_ok_connect (s : State) : step_ok s (fst (connect s)).
Proof.
  rewrite connect_eq.
  destruct (_closed (self s)) eqn:Ec; cbn [orb]; [apply step_ok_refl|].
  destruct (_socket (self s)) eqn:Es; cbn [truthy]; [apply step_ok_refl|].
  assert (H : forall ok, step_ok s (after_connect ok s)).
  { intros ok. split.
    - intros (W1 & W2 & W3 & W4). unfold well_formed, after_connect.
      cbn [self env set_socket set_status _closed _socket _authenticated
           _responses status truthy].
      rewrite Ec. repeat split; auto; try discriminate.
      destruct ok; discriminate.
    - repeat split; auto. }
  destruct (accepts (env s)); apply H.
Qed.

Lemma step_ok_close (s : State) : step_ok s (fst (close s)).
Proof.
  rewrite close_eq. destruct (truthy (_socket (self s))) eqn:Es.
  - apply step_ok_after_close. exact Es.
  - apply step_ok_refl.
Qed.

Lemma step_ok_authenticate (s : State) : step_ok s (fst (authenticate s)).
Proof.
  rewrite authenticate_eq.
  destruct (_closed (self s) || negb (truthy (_socket (self s)))) eqn:Eg;
    [apply step_ok_refl|].
  apply orb_false_elim in Eg. destruct Eg as [_ Hsock].
  apply negb_false_iff in Hsock.
  pose proof (step_ok_request RCONMessage.AUTH (_password (self s)) s) as H1.
  destruct (_request RCONMessage.AUTH (_password (self s)) s) as [s1 [[]|e|]];
    try exact H1.
  cbn [fst] in H1. pose proof (step_ok_receive 2 s1) as H2.
  pose proof (step_ok_trans _ _ _ H1 H2) as H12. clear H1 H2.
  destruct (_receive 2 s1) as [s2 [ms|e|]]; cbn [fst] in H12;
    [| destruct (is_RCONCommunicationError e); exact H12 | exact H12].
  destruct ms as [|m1 [|m2 [|m3 ms]]]; try exact H12.
  assert (Hs2 : truthy (_socket (self s2)) = true).
  { destruct H12 as [_ (_ & _ & _ & _ & _ & H)]. auto. }
  destruct (_ =? _).
  - unfold bind. rewrite close_eq, Hs2.
    exact (step_ok_trans _ _ _ H12 (step_ok_after_close _ Hs2)).
  - apply (step_ok_trans _ _ _ H12). split.
    + intros (W1 & W2 & W3 & W4). unfold well_formed.
      cbn [self env set_authenticated _closed _socket _authenticated
           _responses].
      repeat split; auto; apply W3; assumption.
    + repeat split; auto.
Qed.

Lemma step_ok_execute (command : RCONMessage.body_or_text) (block : bool)
  (s : State) : step_ok s (fst (execute command block s)).
Proof.
  rewrite execute_eq.
  pose proof (step_ok_request RCONMessage.EXECCOMMAND command s) as H1.
  destruct (_request RCONMessage.EXECCOMMAND command s) as [s1 [[]|e|]];
    try exact H1.
  cbn [fst] in H1. destruct block.
  - pose proof (step_ok_trans _ _ _ H1 (step_ok_receive 1 s1)) as H2.
    destruct (_receive 1 s1) as [s2 [[|r rs]|e|]]; exact H2.
  - pose proof (step_ok_trans _ _ _ H1
                  (step_ok_trans _ _ _ (step_ok_after_discard s1)
                     (step_ok_read _))) as H2.
    destruct (_read (after_discard s1)) as [s2 [[]|e|]]; exact H2.
Qed.

Lemma step_ok_run_call (c : call) (s : State) :
  step_ok s (fst (run_call c s)).
Proof.
  destruct c as [| | |command block|command]; cbn [run_call].
  - apply step_ok_connect.
  - apply step_ok_authenticate.
  - apply step_ok_close.
  - unfold bind. pose proof (step_ok_execute command block s) as H.
    destruct (execute command block s) as [s1 [r|e|]]; exact H.
  - unfold bind. rewrite __call___eq.
    pose proof (step_ok_execute command true s) as H.
    destruct (execute command true s) as [s1 [[r|]|e|]]; try exact H.
    destruct (RCONMessage.text r); exact H.
Qed.

Lemma step_ok_run_calls (cs : list call) :
  forall s, step_ok s (run_calls cs s).
Proof.
  induction cs as [|c cs IH]; intros s; cbn [run_calls];
    [apply step_ok_refl|].
  pose proof (step_ok_run_call c s) as H.
  destruct (run_call c s) as [s1 [[]|e|]]; cbn [fst] in H;
    try exact H; exact (step_ok_trans _ _ _ H (IH s1)).
Qed.

(** X14: from a new [RCON] object, whatever calls are made and however
    they end, a connection that is closed or authenticated has a socket,
    its socket is closed exactly when [_closed] is set, and no message is
    queued while a discard is pending. *)
Theorem reachable_well_formed (address : string * Z)
  (password : RCONMessage.body_or_text) (timeout : option Z) (e : Env)
  (cs : list call) :
  well_formed (run_calls cs (mkState (__init__ address password timeout) e)).
Proof.
  apply (step_ok_run_calls cs). unfold well_formed, __init__.
  cbn [self env _closed _socket _authenticated _responses truthy].
  repeat split; try discriminate. left. reflexivity.
Qed.

(** X15: no call resets an attribute: over any sequence of calls the
    address, the password and the timeout stay as they are, and
    [_authenticated], [_closed] and [_socket], once set, stay set; so
    [is_authenticated] is still true after [close]. *)
Theorem attributes_grow (cs : list call) (s : State) :
  grows (self s) (self (run_calls cs s)) /\
  (is_authenticated (self s) = true ->
   is_authenticated (self (run_calls (cs ++ [Call_close]) s)) = true).
Proof.
  split; [apply step_ok_run_calls|].
  intros H. unfold is_authenticated in *.
  destruct (step_ok_run_calls (cs ++ [Call_close]) s)
    as [_ (_ & _ & _ & Ha & _)].
  auto.
Qed.

End Invariants.

(** ** The calls of a user *)

Section Calls.

Import RCON.

Lemma _read_raises (s s' : State) (e : exn) :
  _read s = (s', Raise e) -> receive_exn e /\ e <> RCONTimeoutError.
Proof.
  rewrite _read_eq. unfold receive_exn.
  destruct (_socket (self s));
    [|intros H; injection H as _ <-; split; [auto 10|discriminate]].
  destruct (status (env s));
    try (intros H; injection H as _ <-; split; [auto 10|discriminate]).
  destruct (recvs (env s)) as [|[[|b bs]|] rest]; try discriminate;
    try (intros H; injection H as _ <-; split; [auto 10|discriminate]).
  destruct (_ResponseBuffer.feed (b :: bs) (_responses (self s)))
    as [rb' [[]|e']] eqn:Ef; unfold of_result; [discriminate|].
  intros H; injection H as _ <-. apply feed_errors in Ef.
  destruct Ef as [-> | ->]; split; auto 10; discriminate.
Qed.

Lemma receive_loop_raises (fuel : nat) :
  forall count ts rs s s' e,
  _receive_loop fuel count ts rs s = (s', Raise e) -> receive_exn e.
Proof.
  assert (Hup : forall s s' e, time_is_up s = (s', Raise e) -> receive_exn e).
  { intros s s' e. rewrite time_is_up_eq. unfold receive_exn.
    destruct (truthy _); intros H; injection H as _ <-; auto 10. }
  induction fuel as [|fuel IH]; intros count ts rs s s' e.
  - rewrite _receive_loop_O. destruct (_timeout (self s)); [|discriminate].
    destruct (_ <? _); [discriminate|apply Hup].
  - rewrite _receive_loop_S.
    assert (Hturn : forall s1, turn fuel count ts rs s1 = (s', Raise e) ->
                               receive_exn e).
    { intros s1. unfold turn. destruct (_read s1) as [s2 [[]|e2|]] eqn:Er;
        [| |discriminate].
      - destruct (_ResponseBuffer._responses (_responses (self s2)));
          [apply IH|]. destruct (_ =? _); [discriminate|apply IH].
      - intros H. injection H as _ <-. apply (_read_raises _ _ _ Er). }
    destruct (_timeout (self s));
      [destruct (_ <? _); [apply Hturn|apply Hup]|apply Hturn].
Qed.

Lemma receive_loop_nonempty (fuel : nat) :
  forall count ts rs s s' ms,
  _receive_loop fuel count ts rs s = (s', Return ms) -> ms <> [].
Proof.
  induction fuel as [|fuel IH]; intros count ts rs s s' ms.
  - rewrite _receive_loop_O, time_is_up_eq.
    destruct (_timeout (self s)); [|discriminate].
    destruct (_ <? _); [discriminate|]. destruct (truthy _); discriminate.
  - rewrite _receive_loop_S, time_is_up_eq.
    assert (Hturn : forall s1, turn fuel count ts rs s1 = (s', Return ms) ->
                               ms <> []).
    { intros s1. unfold turn. destruct (_read s1) as [s2 [[]|e2|]];
        try discriminate.
      destruct (_ResponseBuffer._responses (_responses (self s2)));
        [apply IH|]. destruct (_ =? _); [|apply IH].
      intros H. injection H as _ <-. destruct rs; discriminate. }
    destruct (_timeout (self s));
      [destruct (_ <? _); [apply Hturn|]|apply Hturn].
    destruct (truthy _); discriminate.
Qed.

(** X16: when [_receive(count)] returns, it returns exactly [count]
    messages, [count] is at least 1, at least [count] reads were made, and
    the connection is as open as it was; so [_receive(0)] never returns. *)
Theorem receive_returns_count (count : Z) (s s' : State)
  (ms : list RCONMessage.t) :
  _receive count s = (s', Return ms) ->
  Z.of_nat (length ms) = count /\ 1 <= count /\
  Z.of_nat (length (recvs (env s'))) + count
  <= Z.of_nat (length (recvs (env s))) /\
  _closed (self s') = _closed (self s).
Proof.
  intros H. pose proof (_receive_post _ _ _ _ H) as [_ [Hlen Hc]].
  assert (Hne : ms <> []).
  { rewrite _receive_eq in H. exact (receive_loop_nonempty _ _ _ _ _ _ _ H). }
  assert (H1 : 1 <= count).
  { destruct ms; [congruence|]. simpl length in Hlen. lia. }
  repeat split; try assumption. apply (receive_reads _ _ _ _ H). lia.
Qed.

Lemma receive_returns_count_witness :
  let s := sample_state None false
             [Recv_bytes empty_reply_frame; Recv_bytes auth_reply_frame] in
  snd (_receive 2 s) = Return [empty_reply; auth_reply] /\
  _closed (self (fst (_receive 2 s))) = false.
Proof.
  intros s. split; [reflexivity|].
  apply (receive_returns_count 2 s (fst (_receive 2 s))
           [empty_reply; auth_reply] eq_refl).
Defined.

(** X17: [authenticate] never raises [RCONCommunicationError], and when it
    raises [RCONAuthenticationError] or [RCONTimeoutError] the connection
    is closed: [_closed] is set and the socket is closed. *)
Theorem authenticate_failure_closes (s s' : State) (e : exn) :
  authenticate s = (s', Raise e) ->
  e <> RCONCommunicationError /\
  ((exists banned, e = RCONAuthenticationError banned) \/ e = RCONTimeoutError ->
   _closed (self s') = true /\ status (env s') = Sock_closed).
Proof.
  rewrite authenticate_eq.
  destruct (_closed (self s) || negb (truthy (_socket (self s)))) eqn:Eg.
  { intros H. injection H as _ <-. split; [discriminate|].
    intros [[b Hb]|Hb]; discriminate Hb. }
  apply orb_false_elim in Eg. destruct Eg as [_ Hsock].
  apply negb_false_iff in Hsock.
  destruct (_request RCONMessage.AUTH (_password (self s)) s)
    as [s1 o1] eqn:Eq.
  apply _request_inv in Eq. destruct Eq as [Hself Ho1].
  destruct o1 as [[]|e1|]; [| |discriminate].
  - destruct (_receive 2 s1) as [s2 o2] eqn:Er.
    pose proof (_receive_post _ _ _ _ Er) as [(_ & _ & _ & _ & Hs) Ho2].
    destruct o2 as [ms|e2|]; [| |discriminate].
    + destruct ms as [|m1 [|m2 [|m3 ms]]];
        try (intros H; injection H as _ <-; split; [discriminate|];
             intros [[b Hb]|Hb]; discriminate Hb).
      destruct (_ =? _); [|discriminate].
      unfold bind. rewrite close_eq, Hs, Hself, Hsock.
      intros H. injection H as <- <-. split; [discriminate|].
      intros _. split; reflexivity.
    + rewrite _receive_eq in Er. apply receive_loop_raises in Er.
      destruct Er as [->|[->|[->|[->|[->| ->]]]]];
        cbn [is_RCONCommunicationError]; intros H; injection H as <- <-;
        (split; [discriminate|]);
        try (intros [[b Hb]|Hb]; discriminate Hb).
      * intros _. exact Ho2.
      * intros _. destruct Ho2 as (H1 & H2 & _). split; assumption.
  - intros H. injection H as _ <-. split.
    + intros ->. discriminate Ho1.
    + intros [[b ->]| ->]; discriminate Ho1.
Qed.

Lemma authenticate_failure_closes_witness :
  let s := sample_state None false
             [Recv_bytes empty_reply_frame;
              Recv_bytes [x0a; x00; x00; x00; xff; xff; xff; xff;
                          x02; x00; x00; x00; x00; x00]] in
  snd (authenticate s) = Raise (RCONAuthenticationError false) /\
  _closed (self (fst (authenticate s))) = true /\
  status (env (fst (authenticate s))) = Sock_closed.
Proof.
  intros s. split; [reflexivity|].
  apply (proj2 (authenticate_failure_closes s (fst (authenticate s))
                  (RCONAuthenticationError false) eq_refl)).
  left. exists false. reflexivity.
Defined.

Lemma after_close_closed (s : State) :
  _closed (self s) = true -> status (env s) = Sock_closed -> after_close s = s.
Proof.
  destruct s as [[ad pw tm au so cl rb] [ac st rs sn se ck tk]].
  cbn [self env _closed status]. intros -> ->. reflexivity.
Qed.

(** X18: closed is final: on a closed connection reached by calls,
    every call leaves the whole state as it is, and every call but
    [close] raises; [connect] and [authenticate] raise [RCONError]. *)
Theorem closed_is_final (s : State) (c : call) (cs : list call) :
  well_formed s -> _closed (self s) = true ->
  fst (run_call c s) = s /\
  (c <> Call_close -> exists e, snd (run_call c s) = Raise e) /\
  snd (run_call Call_connect s) = Raise (RCONError Cannot_connect) /\
  snd (run_call Call_authenticate s) = Raise (RCONError Cannot_authenticate) /\
  run_calls cs s = s.
Proof.
  intros (W1 & _ & W3 & _) Hc.
  pose proof (W1 Hc) as Hsock. pose proof (proj1 (W3 Hsock) Hc) as Hst.
  assert (Hexec : forall command block,
    exists e, execute command block s = (s, Raise e)).
  { intros command block. rewrite execute_eq.
    destruct (_request RCONMessage.EXECCOMMAND command s) as [s1 o1] eqn:Eq.
    apply _request_shape in Eq.
    destruct Eq as (_ & _ & _ & _ & _ & Hh & Hr & Hs).
    rewrite Hs by (rewrite Hst; discriminate).
    destruct o1 as [[]|e|]; [|eauto|congruence].
    destruct (Hr eq_refl) as [Hr' _]. congruence. }
  assert (Hone : forall c', fst (run_call c' s) = s /\
            (c' <> Call_close -> exists e, snd (run_call c' s) = Raise e)).
  { intros c'. destruct c' as [| | |command block|command]; cbn [run_call].
    - rewrite connect_eq, Hc. cbn [orb fst snd]. eauto.
    - rewrite authenticate_eq, Hc. cbn [orb fst snd]. eauto.
    - rewrite close_eq, Hsock. cbn [fst].
      split; [apply after_close_closed; assumption|congruence].
    - unfold bind. destruct (Hexec command block) as [e ->]. cbn. eauto.
    - unfold bind. rewrite __call___eq.
      destruct (Hexec command true) as [e ->]. cbn. eauto. }
  split; [apply Hone|]. split; [apply Hone|].
  split; [cbn [run_call]; rewrite connect_eq, Hc; reflexivity|].
  split; [cbn [run_call]; rewrite authenticate_eq, Hc; reflexivity|].
  induction cs as [|c' cs IH]; [reflexivity|]. cbn [run_calls].
  destruct (Hone c') as [H1 _].
  destruct (run_call c' s) as [s1 [[]|e|]]; cbn [fst] in H1; subst s1;
    try exact IH; reflexivity.
Qed.

Lemma closed_is_final_witness :
  let s := after_close (sample_state None true []) in
  run_calls [Call_connect; Call_authenticate;
             Call_execute (RCONMessage.Text "status") true; Call_close] s = s.
Proof.
  intros s.
  apply (closed_is_final s Call_close).
  - unfold well_formed. cbn. repeat split; auto. left. reflexivity.
  - reflexivity.
Defined.

(** The first turn of [_receive(1)]: after a read that returns, the
    oldest message of the queue is popped and returned. *)
Lemma receive_one (s s2 : State) (m : RCONMessage.t)
  (q : list RCONMessage.t) :
  in_time s = true -> _read (first_read s) = (s2, Return tt) ->
  _ResponseBuffer._responses (_responses (self s2)) = m :: q ->
  _receive 1 s = (after_pop s2, Return [m]).
Proof.
  unfold in_time, first_read. intros Ht Hr Hq.
  rewrite _receive_eq, _receive_loop_S. cbn [after_tick self env clock ticks].
  destruct (_timeout (self s)) as [t|].
  - rewrite Ht. unfold turn. cbn [after_tick self env] in Hr |- *.
    rewrite Hr, Hq. reflexivity.
  - unfold turn. cbn [after_tick self env] in Hr |- *.
    rewrite Hr, Hq. reflexivity.
Qed.

(** X19: [execute] with [block] true returns the oldest message of the
    queue after one read that returns: a message that was queued before
    is returned in place of the reply to this command.  And no call of
    [execute] with [block] true, whatever the command and the state,
    returns [None]. *)
Theorem execute_returns_oldest (command : RCONMessage.body_or_text)
  (s s1 s2 : State) (m : RCONMessage.t) (q : list RCONMessage.t) :
  _request RCONMessage.EXECCOMMAND command s = (s1, Return tt) ->
  in_time s1 = true -> _read (first_read s1) = (s2, Return tt) ->
  _ResponseBuffer._responses (_responses (self s2)) = m :: q ->
  execute command true s = (after_pop s2, Return (Some m)) /\
  (forall command' t t' r,
     execute command' true t = (t', Return r) -> r <> None).
Proof.
  intros Hreq Ht Hr Hq. split.
  - rewrite execute_eq, Hreq, (receive_one s1 s2 m q Ht Hr Hq). reflexivity.
  - intros command' t t' r. rewrite execute_eq.
    destruct (_request RCONMessage.EXECCOMMAND command' t) as [t1 [[]|e|]];
      try discriminate.
    destruct (_receive 1 t1) as [t2 [[|x xs]|e|]]; try discriminate.
    intros H. injection H as _ <-. discriminate.
Qed.

Lemma execute_returns_oldest_witness :
  let stale := RCONMessage.Message 9 RCONMessage.RESPONSE_VALUE [x6f; x6c; x64] in
  let s0 := sample_state None true [Recv_bytes empty_reply_frame] in
  let s := mkState
             (set_responses (_ResponseBuffer.Buffer [] [stale] 0) (self s0))
             (env s0) in
  snd (execute (RCONMessage.Text "status") true s) = Return (Some stale) /\
  _ResponseBuffer._responses
    (_responses (self (fst (execute (RCONMessage.Text "status") true s))))
  = [empty_reply].
Proof.
  intros stale s0 s.
  pose (s1 := fst (_request RCONMessage.EXECCOMMAND (RCONMessage.Text "status") s)).
  pose (s2 := fst (_read (first_read s1))).
  destruct (execute_returns_oldest (RCONMessage.Text "status") s s1 s2 stale
              [empty_reply] eq_refl eq_refl eq_refl eq_refl) as [H _].
  rewrite H. split; reflexivity.
Defined.

(** X20: [execute] with [block] false, on a connection with nothing
    buffered, when the reply comes whole in the one read it makes: the
    reply is dropped, nothing is queued, no discard is left pending, and
    the call returns [None]. *)
Theorem execute_unblocked_drops_reply (command : RCONMessage.body_or_text)
  (s s1 : State) (m : RCONMessage.t) (frame : bytes)
  (rest : list recv_event) :
  _request RCONMessage.EXECCOMMAND command s = (s1, Return tt) ->
  _responses (self s) = _ResponseBuffer.__init__ ->
  RCONMessage.encode m = Ok frame ->
  recvs (env s1) = Recv_bytes frame :: rest ->
  snd (execute command false s) = Return None /\
  _responses (self (fst (execute command false s))) = _ResponseBuffer.__init__ /\
  recvs (env (fst (execute command false s))) = rest /\
  _closed (self (fst (execute command false s))) = _closed (self s).
Proof.
  intros Hreq Hrb Hm Hrecv. rewrite execute_eq, Hreq.
  pose proof (_request_shape _ _ _ _ _ Hreq)
    as (Hself & Hst & _ & _ & _ & _ & Hret & _).
  destruct (Hret eq_refl) as [Hconn Hsock]. rewrite <- Hst in Hconn.
  rewrite _read_eq. unfold after_discard. cbn [self env set_responses _socket
    _responses _closed].
  rewrite Hself. destruct (_socket (self s)); [|discriminate Hsock].
  rewrite Hconn, Hrecv, Hrb.
  pose proof (encode_Ok _ _ Hm) as (_ & _ & Hf).
  destruct frame as [|b0 bs]; [discriminate Hf|].
  assert (Hfeed :
    _ResponseBuffer.feed (b0 :: bs)
      (_ResponseBuffer.discard _ResponseBuffer.__init__)
    = (_ResponseBuffer.__init__, Ok tt)).
  { unfold _ResponseBuffer.feed, _ResponseBuffer.discard,
      _ResponseBuffer.__init__.
    cbn [_ResponseBuffer._buffer _ResponseBuffer._responses
         _ResponseBuffer._discard_next app].
    rewrite <- (app_nil_r (b0 :: bs)), (consume_frame _ _ _ _ _ Hm).
    rewrite _consume_unfold. reflexivity. }
  rewrite Hfeed. unfold of_result, after_recv.
  cbn [fst snd self env set_responses _responses _closed recvs].
  rewrite Hrecv. repeat split.
Qed.

Lemma execute_unblocked_drops_reply_witness :
  let s := sample_state None true [Recv_bytes empty_reply_frame] in
  execute (RCONMessage.Text "say hi") false s
  = (fst (execute (RCONMessage.Text "say hi") false s), Return None) /\
  _responses (self (fst (execute (RCONMessage.Text "say hi") false s)))
  = _ResponseBuffer.__init__.
Proof.
  intros s. split; [reflexivity|].
  apply (execute_unblocked_drops_reply (RCONMessage.Text "say hi") s
           (fst (_request RCONMessage.EXECCOMMAND (RCONMessage.Text "say hi") s))
           empty_reply empty_reply_frame []); reflexivity.
Defined.

(** X21: when [__enter__] returns, the connection is authenticated, and
    [__exit__] then returns and leaves it closed. *)
Theorem enter_then_exit (s s' : State) :
  __enter__ s = (s', Return tt) ->
  lifecycle_of (self s') = Authenticated /\
  is_authenticated (self s') = true /\
  __exit__ s' = (after_close s', Return tt) /\
  lifecycle_of (self (after_close s')) = Closed.
Proof.
  unfold __enter__, __exit__, bind. rewrite connect_eq.
  destruct (_closed (self s) || truthy (_socket (self s))); [discriminate|].
  destruct (accepts (env s)); [|discriminate].
  set (s0 := after_connect true s). rewrite authenticate_eq.
  destruct (_closed (self s0) || negb (truthy (_socket (self s0)))) eqn:Eg;
    [discriminate|].
  apply orb_false_elim in Eg. destruct Eg as [Hc0 _].
  destruct (_request RCONMessage.AUTH (_password (self s0)) s0)
    as [s1 o1] eqn:Eq.
  apply _request_inv in Eq. destruct Eq as [Hself _].
  destruct o1 as [[]|e1|]; try discriminate.
  destruct (_receive 2 s1) as [s2 o2] eqn:Er.
  pose proof (_receive_post _ _ _ _ Er) as [(_ & _ & _ & _ & Hs) Ho2].
  destruct o2 as [ms|e2|]; [| |discriminate].
  - destruct Ho2 as [_ Hc2].
    destruct ms as [|m1 [|m2 [|m3 ms]]]; try discriminate.
    destruct (_ =? _).
    + unfold bind. rewrite close_eq. destruct (truthy _); discriminate.
    + intros H. injection H as <-. rewrite close_eq. unfold lifecycle_of,
        is_authenticated.
      cbn [self env set_authenticated after_close set_closed _closed _socket
           _authenticated].
      rewrite Hc2, Hs, Hself, Hc0. cbn. repeat split.
  - destruct (is_RCONCommunicationError e2); discriminate.
Qed.

Lemma enter_then_exit_witness :
  let s := mkState (__init__ ("localhost"%string, 27015)
                      (RCONMessage.Text "pw") None)
             (mkEnv true Sock_new
                [Recv_bytes empty_reply_frame; Recv_bytes auth_reply_frame]
                [] [] sample_clock 0) in
  snd (__enter__ s) = Return tt /\
  lifecycle_of (self (fst (__enter__ s))) = Authenticated.
Proof.
  intros s. split; [reflexivity|].
  apply (enter_then_exit s (fst (__enter__ s)) eq_refl).
Defined.

(** X22: [__call__] gives the text of the message [execute] returns, a
    text that encodes to the body of that message; when the body is not
    ASCII it raises [RCONMessageError] and leaves the connection as open
    as it was. *)
Theorem call_returns_text (command : RCONMessage.body_or_text)
  (s s1 : State) (m : RCONMessage.t) :
  execute command true s = (s1, Return (Some m)) ->
  match RCONMessage.text m with
  | RCONMessage.Decoded txt =>
      __call__ command s = (s1, Return txt) /\
      RCONMessage.ascii_encode txt = Ok (RCONMessage.body m)
  | RCONMessage.UnicodeDecodeError =>
      __call__ command s = (s1, Raise RCONMessageError) /\
      _closed (self s1) = _closed (self s)
  end.
Proof.
  intros H. rewrite __call___eq, H.
  destruct (RCONMessage.text m) as [txt|] eqn:Et.
  - split; [reflexivity|]. apply ascii_encode_decode. exact Et.
  - split; [reflexivity|]. rewrite execute_eq in H.
    destruct (_request RCONMessage.EXECCOMMAND command s) as [t1 o1] eqn:Eq.
    apply _request_inv in Eq. destruct Eq as [Hself _].
    destruct o1 as [[]|e|]; try discriminate.
    destruct (_receive 1 t1) as [t2 o2] eqn:Er.
    pose proof (_receive_post _ _ _ _ Er) as [_ Ho2].
    destruct o2 as [[|x xs]|e|]; try discriminate.
    injection H as <- _. destruct Ho2 as [_ Hc]. congruence.
Qed.

Lemma call_returns_text_witness :
  let reply := [x0c; x00; x00; x00; x00; x00; x00; x00; x00; x00; x00; x00;
                xc3; xa9; x00; x00] in
  let s := sample_state None true [Recv_bytes reply] in
  snd (__call__ (RCONMessage.Text "status") s) = Raise RCONMessageError /\
  _closed (self (fst (__call__ (RCONMessage.Text "status") s))) = false.
Proof.
  intros reply s.
  pose (r := execute (RCONMessage.Text "status") true s).
  pose proof (call_returns_text (RCONMessage.Text "status") s (fst r)
                (RCONMessage.Message 0 RCONMessage.RESPONSE_VALUE [xc3; xa9])
                eq_refl
              : __call__ (RCONMessage.Text "status") s
                = (fst r, Raise RCONMessageError) /\
                _closed (self (fst r)) = _closed (self s)) as [H1 H2].
  rewrite H1. split; [reflexivity|exact H2].
Defined.

(** X23: [connect] on a new connection: when the peer accepts, the
    connection is connected; when it does not, [socket.error] comes out
    and the socket stays in [_socket].  Either way a second [connect]
    raises [RCONError]: a failed [connect] cannot be tried again. *)
Theorem connect_once (s : State) :
  well_formed s -> lifecycle_of (self s) = Unconnected ->
  connect s =
    (if accepts (env s)
     then (after_connect true s, Return tt)
     else (after_connect false s, Raise socket_error)) /\
  lifecycle_of (self (fst (connect s))) = Connected /\
  connect (fst (connect s)) =
    (fst (connect s), Raise (RCONError Cannot_connect)).
Proof.
  unfold lifecycle_of. intros (_ & W2 & _) H.
  destruct (_closed (self s)) eqn:Ec; [discriminate|].
  destruct (_socket (self s)) eqn:Es;
    [destruct (_authenticated (self s)); discriminate|].
  destruct (_authenticated (self s)) eqn:Ea;
    [specialize (W2 eq_refl); discriminate W2|].
  rewrite !connect_eq, Ec, Es. cbn [orb truthy].
  destruct (accepts (env s)); cbn [fst after_connect self set_socket _closed
    _socket _authenticated truthy orb]; rewrite Ec, Ea; cbn [orb];
    rewrite ?orb_true_r; repeat split.
Qed.

Lemma connect_once_witness :
  let s := mkState (__init__ ("localhost"%string, 27015)
                      (RCONMessage.Text "pw") None)
             (mkEnv false Sock_new [] [] [] sample_clock 0) in
  snd (connect s) = Raise socket_error /\
  snd (connect (fst (connect s))) = Raise (RCONError Cannot_connect).
Proof.
  intros s.
  assert (W : well_formed s).
  { unfold well_formed. cbn. repeat split; try discriminate. left. reflexivity. }
  destruct (connect_once s W eq_refl) as (H1 & _ & H2).
  rewrite H2. split; reflexivity.
Defined.

End Calls.
